(** * Lava configuration: parsing, validation and report filters

    A shallow embedding of package [config] of Lava (config.go) together
    with the parts of its imports that decide the behaviour of the
    package: the error values of [errors]/[fmt] and the version syntax
    check of [golang.org/x/mod/semver].

    Conventions of the embedding:
    - a Go [string] is a sequence of bytes, here [string] (a list of
      [ascii]); indexing and slicing are by byte;
    - Go's [int]-based defined types ([Severity], [OutputFormat],
      [slog.Level], ...) are [Z]; no arithmetic is done on them, so no
      wrap-around is involved;
    - a Go value of interface type [error] is [option error], [None]
      being [nil]; error values are compared by structure, which agrees
      with Go's comparison by identity on the sentinels of the package,
      whose texts differ pairwise;
    - a method with a pointer receiver that assigns through the receiver
      takes the old value and returns the new one next to its result;
    - [nil] and empty slices (maps) are identified: the package only
      observes them through [len] and [range]. *)

From Stdlib Require Import ZArith String Ascii List Bool Lia.
From stdpp Require Import base option gmap strings list fin_maps.

Local Open Scope Z_scope.
Local Open Scope string_scope.
Local Open Scope list_scope.

(** ** Zero values *)

(** Every Go type has a zero value, the content of a declared but
    unassigned variable ([var zero Severity]) and of an empty composite
    literal ([Config{}]). *)
Class Zero (T : Type) : Type := zero : T.

#[export] Instance Zero_string : Zero string := "".
#[export] Instance Zero_Z : Zero Z := 0.
#[export] Instance Zero_list {A : Type} : Zero (list A) := [].
#[export] Instance Zero_gmap {V : Type} : Zero (gmap string V) := (∅ : gmap string V).

(** ** Errors: [errors.New], [fmt.Errorf] with a [%w] verb, [errors.Is] *)

Module errors.

(** An error is either a value made by [errors.New] (the sentinels of
    this package, and whatever an imported decoder reports), or the
    result of a [fmt.Errorf] call whose format holds one [%w] verb:
    [before] and [after] are the formatted text around the wrapped
    error. *)
Inductive error : Type :=
| New (text : string)
| Errorf (before : string) (w : error) (after : string).

(** The [Error()] method. *)
Fixpoint Error (e : error) : string :=
  match e with
  | New text => text
  | Errorf before w after => before +:+ Error w +:+ after
  end.

Fixpoint eqb (a b : error) : bool :=
  match a, b with
  | New s, New t => String.eqb s t
  | Errorf b1 w1 a1, Errorf b2 w2 a2 =>
      String.eqb b1 b2 && eqb w1 w2 && String.eqb a1 a2
  | _, _ => false
  end.

(** [errors.Is]: [target] is found somewhere on the [Unwrap] chain. *)
Fixpoint Is (err target : error) : bool :=
  eqb err target ||
  match err with
  | New _ => false
  | Errorf _ w _ => Is w target
  end.

End errors.

Export errors(error).

(** ** Byte strings: indexing and slicing *)

Module slices.

(** [v[:i]] *)
Fixpoint slice_to (i : nat) (v : string) : string :=
  match i, v with
  | S i', String c v' => String c (slice_to i' v')
  | _, _ => EmptyString
  end.

(** [v[i:]] *)
Fixpoint slice_from (i : nat) (v : string) : string :=
  match i, v with
  | S i', String _ v' => slice_from i' v'
  | _, _ => v
  end.

(** [v[start:i]] *)
Definition slice (start i : nat) (v : string) : string :=
  slice_to (i - start) (slice_from start v).

End slices.

(** ** [golang.org/x/mod/semver]: the syntax check behind [IsValid]

    config.go imports this package and calls [semver.IsValid] on the
    [lava] field; the package is a dependency and not part of the
    repository. The functions below transcribe [IsValid], [parse],
    [parseInt], [parsePrerelease], [parseBuild], [isIdentChar] and
    [isBadNum] of its semver.go, loop by loop: an index [i] into [v] is
    a [nat], the loops recurse on the suffix [v[i:]] that is still to be
    read. The package documents the form it accepts as
    vMAJOR[.MINOR[.PATCH[-PRERELEASE][+BUILD]]]: Semantic Versioning
    2.0.0 with the v prefix required and the two short forms added;
    [IsValid_iff] below proves that of the transcription. *)

Module semver.
Import slices.

Local Open Scope char_scope.

(** ['0' <= c && c <= '9'] *)
Definition isDigit (c : ascii) : bool := ("0" <=? c) && (c <=? "9").

Definition isIdentChar (c : ascii) : bool :=
  ("A" <=? c) && (c <=? "Z") || ("a" <=? c) && (c <=? "z")
  || ("0" <=? c) && (c <=? "9") || (c =? "-").

(** [for i < len(v) && '0' <= v[i] && v[i] <= '9' { i++ }], entered
    with [rest = v[i:]]; the result is the final [i]. *)
Fixpoint skipDigits (rest : string) (i : nat) : nat :=
  match rest with
  | String c rest' => if isDigit c then skipDigits rest' (S i) else i
  | EmptyString => i
  end.

Definition isBadNum (v : string) : bool :=
  let i := skipDigits v 0 in
  Nat.eqb i (String.length v) && Nat.ltb 1 i
  && match String.get 0 v with Some c => c =? "0" | None => false end.

(** [parseInt] returns [(t, rest, ok)]; [None] stands for [ok = false]
    (the other results are then the empty string). *)
Definition parseInt (v : string) : option (string * string) :=
  match v with
  | EmptyString => None
  | String c0 v1 =>
      if (c0 <? "0") || ("9" <? c0) then None
      else
        let i := skipDigits v1 1 in
        if (c0 =? "0") && negb (Nat.eqb i 1) then None
        else Some (slice_to i v, slice_from i v)
  end.

(** The loop of [parsePrerelease], entered with [rest = v[i:]]:
    [None] when it returns early with [ok = false], otherwise the
    values of [i] and [start] when it ends. *)
Fixpoint prereleaseLoop (v rest : string) (i start : nat) : option (nat * nat) :=
  match rest with
  | EmptyString => Some (i, start)
  | String c rest' =>
      if c =? "+" then Some (i, start)
      else if negb (isIdentChar c) && negb (c =? ".") then None
      else if c =? "." then
        if Nat.eqb start i || isBadNum (slice start i v) then None
        else prereleaseLoop v rest' (S i) (S i)
      else prereleaseLoop v rest' (S i) start
  end.

Definition parsePrerelease (v : string) : option (string * string) :=
  match v with
  | EmptyString => None
  | String c0 v1 =>
      if negb (c0 =? "-") then None
      else
        match prereleaseLoop v v1 1 1 with
        | None => None
        | Some (i, start) =>
            if Nat.eqb start i || isBadNum (slice start i v) then None
            else Some (slice_to i v, slice_from i v)
        end
  end.

(** The loop of [parseBuild], entered with [rest = v[i:]]. *)
Fixpoint buildLoop (rest : string) (i start : nat) : option (nat * nat) :=
  match rest with
  | EmptyString => Some (i, start)
  | String c rest' =>
      if negb (isIdentChar c) && negb (c =? ".") then None
      else if c =? "." then
        if Nat.eqb start i then None
        else buildLoop rest' (S i) (S i)
      else buildLoop rest' (S i) start
  end.

Definition parseBuild (v : string) : option (string * string) :=
  match v with
  | EmptyString => None
  | String c0 v1 =>
      if negb (c0 =? "+") then None
      else
        match buildLoop v1 1 1 with
        | None => None
        | Some (i, start) =>
            if Nat.eqb start i then None
            else Some (slice_to i v, slice_from i v)
        end
  end.

(** The parsed form of a version. *)
Record parsed : Type := mkParsed {
  major : string;
  minor : string;
  patch : string;
  short : string;
  prerelease : string;
  build : string
}.

(** [len(v) > 0 && v[0] == c] *)
Definition startsWith (c : ascii) (v : string) : bool :=
  match v with
  | String c0 _ => c0 =? c
  | EmptyString => false
  end.

(** The tail of [parse], from the patch number on: after
    [p.patch, v, ok = parseInt(v[1:])]. *)
Definition parseSuffix (mj mn pt v : string) : option parsed :=
  match (if startsWith "-" v then parsePrerelease v else Some (EmptyString, v)) with
  | None => None
  | Some (pre, v) =>
      match (if startsWith "+" v then parseBuild v else Some (EmptyString, v)) with
      | None => None
      | Some (bld, v) =>
          match v with
          | EmptyString => Some (mkParsed mj mn pt EmptyString pre bld)
          | String _ _ => None
          end
      end
  end.

(** [parse] returns [(p, ok)]; [None] stands for [ok = false]. *)
Definition parse (v : string) : option parsed :=
  match v with
  | EmptyString => None
  | String c0 v1 =>
      if negb (c0 =? "v") then None
      else
        match parseInt v1 with
        | None => None
        | Some (mj, v) =>
            match v with
            | EmptyString =>
                Some (mkParsed mj "0" "0" ".0.0" EmptyString EmptyString)%string
            | String d v1 =>
                if negb (d =? ".") then None
                else
                  match parseInt v1 with
                  | None => None
                  | Some (mn, v) =>
                      match v with
                      | EmptyString =>
                          Some (mkParsed mj mn "0" ".0" EmptyString EmptyString)%string
                      | String d v1 =>
                          if negb (d =? ".") then None
                          else
                            match parseInt v1 with
                            | None => None
                            | Some (pt, v) => parseSuffix mj mn pt v
                            end
                      end
                  end
            end
        end
  end.

(** [IsValid] reports whether [v] is a valid semantic version string. *)
Definition IsValid (v : string) : bool :=
  match parse v with
  | Some _ => true
  | None => false
  end.

End semver.

(** ** Semantic Versioning 2.0.0: the grammar

    What the specification calls a valid semantic version is stated here
    after the grammar of semver.org, independently of the code above, to
    compare [semver.IsValid] with it:

      valid semver ::= core | core "-" pre-release | core "+" build
                     | core "-" pre-release "+" build
      core         ::= numeric "." numeric "." numeric
      pre-release  ::= dot-separated pre-release identifiers
      build        ::= dot-separated build identifiers *)

Module SemVer2.

Local Open Scope char_scope.

Definition digit (c : ascii) : bool :=
  existsb (Ascii.eqb c) ["0"; "1"; "2"; "3"; "4"; "5"; "6"; "7"; "8"; "9"].

Definition letter (c : ascii) : bool :=
  existsb (Ascii.eqb c)
    ["A"; "B"; "C"; "D"; "E"; "F"; "G"; "H"; "I"; "J"; "K"; "L"; "M";
     "N"; "O"; "P"; "Q"; "R"; "S"; "T"; "U"; "V"; "W"; "X"; "Y"; "Z";
     "a"; "b"; "c"; "d"; "e"; "f"; "g"; "h"; "i"; "j"; "k"; "l"; "m";
     "n"; "o"; "p"; "q"; "r"; "s"; "t"; "u"; "v"; "w"; "x"; "y"; "z"].

(** identifier character ::= digit | letter | "-" *)
Definition identifierCharacter (c : ascii) : bool :=
  digit c || letter c || (c =? "-").

(** Every byte of [s] satisfies [P]. *)
Fixpoint all (P : ascii → bool) (s : string) : bool :=
  match s with
  | EmptyString => true
  | String c s' => P c && all P s'
  end.

(** numeric identifier ::= "0" | positive digit | positive digit digits *)
Definition numericIdentifier (s : string) : bool :=
  match s with
  | EmptyString => false
  | String c s' => digit c && all digit s' && (negb (c =? "0") || String.eqb s' "")
  end.

(** alphanumeric identifier: identifier characters, one of them at
    least no digit. *)
Definition alphanumericIdentifier (s : string) : bool :=
  all identifierCharacter s && negb (all digit s).

(** pre-release identifier ::= alphanumeric identifier | numeric identifier *)
Definition prereleaseIdentifier (s : string) : bool :=
  alphanumericIdentifier s || numericIdentifier s.

(** build identifier ::= alphanumeric identifier | digits *)
Definition buildIdentifier (s : string) : bool :=
  alphanumericIdentifier s || (negb (String.eqb s "") && all digit s).

(** The pieces of [s] between the occurrences of [sep]. *)
Fixpoint split (sep : ascii) (s : string) : list string :=
  match s with
  | EmptyString => [EmptyString]
  | String c s' =>
      if c =? sep then EmptyString :: split sep s'
      else match split sep s' with
           | piece :: pieces => String c piece :: pieces
           | [] => [String c EmptyString]
           end
  end.

(** [s] is a list of identifiers, each satisfying [P], with a dot between
    two of them. *)
Definition dotSeparated (P : string → bool) (s : string) : bool :=
  forallb P (split "." s).

(** An optional part: nothing, or the mark [c] and dot-separated
    identifiers. *)
Definition optionalPart (c : ascii) (P : string → bool) (s : string) : bool :=
  match s with
  | EmptyString => true
  | String c' x => (c' =? c) && dotSeparated P x
  end.

Local Open Scope string_scope.

Definition validSemver (s : string) : Prop :=
  ∃ mj mn pt pre bld : string,
    s = mj +:+ "." +:+ mn +:+ "." +:+ pt +:+ pre +:+ bld ∧
    numericIdentifier mj = true ∧ numericIdentifier mn = true ∧
    numericIdentifier pt = true ∧
    optionalPart "-" prereleaseIdentifier pre = true ∧
    optionalPart "+" buildIdentifier bld = true.

(** The two forms [semver] takes beside the grammar: MAJOR and
    MAJOR.MINOR, with no pre-release and no build. *)
Definition shorthand (s : string) : Prop :=
  ∃ mj : string, numericIdentifier mj = true ∧
    (s = mj ∨ ∃ mn : string, numericIdentifier mn = true ∧ s = mj +:+ "." +:+ mn).

End SemVer2.

(** The version syntax in the reading where the leading v is optional:
    valid semantic version text, with or without the letter v before
    it. *)
Definition semverOptionalV (s : string) : Prop :=
  SemVer2.validSemver s ∨ ∃ t, s = String "v" t ∧ SemVer2.validSemver t.

(** ** Package [config] (config.go) *)

(** *** Sentinel errors *)

Definition ErrInvalidLavaVersion : error := errors.New "invalid Lava version".
Definition ErrNoTargets : error := errors.New "no targets".
Definition ErrNoTargetIdentifier : error := errors.New "no target identifier".
Definition ErrInvalidAssetType : error := errors.New "invalid asset type".
Definition ErrInvalidSeverity : error := errors.New "invalid severity".
Definition ErrInvalidOutputFormat : error := errors.New "invalid output format".

(** *** Enumerations *)

(** [type Severity int] and its levels. *)
Abbreviation Severity := Z (only parsing).

Definition SeverityCritical : Severity := 1.
Definition SeverityHigh : Severity := 0.
Definition SeverityMedium : Severity := -1.
Definition SeverityLow : Severity := -2.
Definition SeverityInfo : Severity := -3.

Definition severityNames : gmap string Z :=
  <["critical" := SeverityCritical]> (
  <["high" := SeverityHigh]> (
  <["medium" := SeverityMedium]> (
  <["low" := SeverityLow]> (
  <["info" := SeverityInfo]> ∅)))).

(** The keys of [severityNames]: the fixed set of severity names. *)
Definition severityNameList : list string :=
  ["critical"; "high"; "medium"; "low"; "info"].

(** [fmt.Errorf("%w: %v", sentinel, token)] *)
Definition invalidToken (sentinel : error) (token : string) : error :=
  errors.Errorf "" sentinel (": " +:+ token).

(** [parseSeverity] converts a string into a [Severity] value. *)
Definition parseSeverity (severity : string) : Severity * option error :=
  match severityNames !! severity with
  | Some val => (val, None)
  | None => (zero, Some (invalidToken ErrInvalidSeverity severity))
  end.

(** [type OutputFormat int] *)
Abbreviation OutputFormat := Z (only parsing).

Definition OutputFormatJSON : OutputFormat := 0.

Definition outputFormatNames : gmap string Z :=
  <["json" := OutputFormatJSON]> ∅.

(** [type AssetType types.AssetType], a string type of vulcan-types. *)
Abbreviation AssetType := string (only parsing).

(** [yaml.Node]: of the node only the scalar text [Value] is read. *)
Record Node : Type := mkNode { Value : string }.

(** *** The configuration

    A field whose Go name is also the name of its type carries a
    trailing underscore here ([AgentConfig_], [ReportConfig_],
    [Severity_], [AssetType_], [Target_]). *)

(** The values a YAML document gives a field of type [any]: scalars,
    sequences and mappings ([float64] scalars are not modelled). The
    package hands them on without looking at them. *)
#[warnings="-register-all"] Inductive any : Type :=
| any_nil
| any_bool (b : bool)
| any_int (n : Z)
| any_string (s : string)
| any_slice (l : list any)
| any_map (m : list (string * any)).

Record RegistryAuth : Type := mkRegistryAuth {
  Server : string;
  Username : string;
  Password : string
}.

Record AgentConfig : Type := mkAgentConfig {
  PullPolicy : Z;
  Parallel : Z;
  Vars : gmap string string;
  RegistriesAuth : list RegistryAuth
}.

Record Exclusion : Type := mkExclusion {
  Target_ : string;
  Resource : string;
  Fingerprint : string;
  Summary : string;
  Description : string
}.

Record ReportConfig : Type := mkReportConfig {
  Severity_ : Severity;
  Format : OutputFormat;
  OutputFile : string;
  Exclusions : list Exclusion
}.

Record Target : Type := mkTarget {
  Identifier : string;
  AssetType_ : AssetType;
  Options : gmap string any
}.

Record Config : Type := mkConfig {
  LavaVersion : string;
  AgentConfig_ : AgentConfig;
  ReportConfig_ : ReportConfig;
  ChecktypesURLs : list string;
  Targets : list Target;
  LogLevel : Z
}.

#[export] Instance Zero_AgentConfig : Zero AgentConfig :=
  mkAgentConfig zero zero zero zero.
#[export] Instance Zero_ReportConfig : Zero ReportConfig :=
  mkReportConfig zero zero zero zero.
#[export] Instance Zero_Target : Zero Target :=
  mkTarget zero zero zero.
#[export] Instance Zero_Config : Zero Config :=
  mkConfig zero zero zero zero zero zero.

(** The assignments [cfg.LavaVersion = version] and
    [cfg.Targets = targets]. *)
Definition withVersion (version : string) (cfg : Config) : Config :=
  mkConfig version (AgentConfig_ cfg) (ReportConfig_ cfg)
    (ChecktypesURLs cfg) (Targets cfg) (LogLevel cfg).

Definition withTargets (targets : list Target) (cfg : Config) : Config :=
  mkConfig (LavaVersion cfg) (AgentConfig_ cfg) (ReportConfig_ cfg)
    (ChecktypesURLs cfg) targets (LogLevel cfg).

(** *** Validation *)

(** The [for _, target := range c.Targets] loop of [validate]. *)
Fixpoint validateTargets (targets : list Target) : option error :=
  match targets with
  | [] => None
  | target :: targets' =>
      if String.eqb (Identifier target) "" then Some ErrNoTargetIdentifier
      else validateTargets targets'
  end.

(** [validate] validates the Lava configuration. *)
Definition validate (c : Config) : option error :=
  if negb (semver.IsValid (LavaVersion c)) then Some ErrInvalidLavaVersion
  else if Nat.eqb (length (Targets c)) 0 then Some ErrNoTargets
  else validateTargets (Targets c).

(** The same loop with the targets it reads, one per iteration: a target
    whose identifier is empty is the last one read. *)
Fixpoint validateTargetsTrace (targets : list Target) : list Target * option error :=
  match targets with
  | [] => ([], None)
  | target :: targets' =>
      if String.eqb (Identifier target) "" then ([target], Some ErrNoTargetIdentifier)
      else
        let '(read, err) := validateTargetsTrace targets' in
        (target :: read, err)
  end.

(** *** Decoding

    The YAML decoder ([gopkg.in/yaml.v3]), [strings.ToLower] and
    [types.Parse] of vulcan-types are imports of the package: the
    functions that call them take them as arguments. *)

(** An [io.Reader] is the bytes it delivers. *)
Abbreviation Reader := string (only parsing).

(** [yaml.NewDecoder(r).Decode(&cfg)]: from the reader and the value
    [cfg] holds, the value it holds afterwards and the error. *)
Definition Decoder : Type := Reader -> Config -> Config * option error.

Section Embedding.

Variable Decode : Decoder.
Variable ToLower : string -> string.
Variable types_Parse : string -> string * option error.

(** [Parse] returns a parsed Lava configuration given an [io.Reader]. *)
Definition Parse (r : Reader) : Config * option error :=
  let cfg : Config := zero in
  let '(cfg, err) := Decode r cfg in
  match err with
  | Some err => (zero, Some (errors.Errorf "decode config: " err ""))
  | None =>
      match validate cfg with
      | Some err => (zero, Some (errors.Errorf "validate config: " err ""))
      | None => (cfg, None)
      end
  end.

(** [parseOutputFormat] converts a string into an [OutputFormat] value. *)
Definition parseOutputFormat (format : string) : OutputFormat * option error :=
  match outputFormatNames !! ToLower format with
  | Some val => (val, None)
  | None => (zero, Some (invalidToken ErrInvalidOutputFormat format))
  end.

(** Method [UnmarshalYAML] of [*OutputFormat]: [f] is the value the receiver
    points to; the result holds the value it points to afterwards. *)
Definition OutputFormat_UnmarshalYAML (f : OutputFormat) (value : Node)
  : OutputFormat * option error :=
  let '(format, err) := parseOutputFormat (Value value) in
  match err with
  | Some err => (f, Some err)
  | None => (format, None)
  end.

(** Method [UnmarshalYAML] of [*AssetType]. *)
Definition AssetType_UnmarshalYAML (t : AssetType) (value : Node)
  : AssetType * option error :=
  let '(at_, err) := types_Parse (Value value) in
  match err with
  | Some _ => (t, Some (invalidToken ErrInvalidAssetType (Value value)))
  | None => (at_, None)
  end.

End Embedding.

(** Method [UnmarshalYAML] of [*Severity]: it returns an error if the
    string does not match any known severity. *)
Definition Severity_UnmarshalYAML (s : Severity) (value : Node)
  : Severity * option error :=
  let '(severity, err) := parseSeverity (Value value) in
  match err with
  | Some err => (s, Some err)
  | None => (severity, None)
  end.

(** ** Report filters and severity encoding

    The check runner's findings, the exclusion matcher, the severity
    filter and the encoder of [Severity] are not in config.go, which only
    declares the data they work on ([Exclusion], [Severity] and its
    levels, [severityNames]). *)

(** Modelled from the spec: the finding the check runner produces
    (section 6), bearing targetName, resourceName, fingerprint and
    severity; its declaration is missing from the sources. *)
Record Finding : Type := mkFinding {
  targetName : string;
  resourceName : string;
  fingerprint : string;
  severity : Severity
}.

(** Modelled from the spec: one field of the exclusion matcher of
    section 4.3, missing from the sources. A field the rule leaves empty
    is a wildcard and always matches; a field it specifies must be
    exactly equal to the finding's. *)
Definition fieldMatches (rule field : string) : bool :=
  if String.eqb rule "" then true else String.eqb rule field.

(** Modelled from the spec: the rule match of section 4.3, missing from
    the sources, over the three fields target, resource and fingerprint;
    summary and description are not used in matching. *)
Definition ruleMatches (e : Exclusion) (f : Finding) : bool :=
  fieldMatches (Target_ e) (targetName f)
  && fieldMatches (Resource e) (resourceName f)
  && fieldMatches (Fingerprint e) (fingerprint f).

(** Modelled from the spec: the exclusion matcher of section 4.3, missing
    from the sources. It walks the exclusion list in document order and
    surfaces the first rule that matches. *)
Fixpoint matchedExclusion (exclusions : list Exclusion) (f : Finding)
  : option Exclusion :=
  match exclusions with
  | [] => None
  | e :: exclusions' =>
      if ruleMatches e f then Some e else matchedExclusion exclusions' f
  end.

(** Modelled from the spec: the boolean result of the exclusion matcher
    of section 4.3, missing from the sources. *)
Definition suppressed (exclusions : list Exclusion) (f : Finding) : bool :=
  match matchedExclusion exclusions f with
  | Some _ => true
  | None => false
  end.

(** The integer rank of a severity: the conversion [int(s)]. *)
Definition rank (s : Severity) : Z := s.

(** Modelled from the spec: the severity filter of section 4.4, missing
    from the sources: reportable if and only if
    [findingSeverity >= minimumSeverity]. *)
Definition reportable (findingSeverity minimumSeverity : Severity) : bool :=
  Z.geb findingSeverity minimumSeverity.

(** Modelled from the spec: the reverse-lookup table of section 9 for
    encoding a [Severity], missing from the sources. *)
Definition severityStrings : gmap Z string :=
  <[SeverityCritical := "critical"]> (
  <[SeverityHigh := "high"]> (
  <[SeverityMedium := "medium"]> (
  <[SeverityLow := "low"]> (
  <[SeverityInfo := "info"]> ∅)))).

(** Modelled from the spec: the encoder of [Severity] of sections 8 and
    9, missing from the sources; [None] for a value that is no level. *)
Definition encodeSeverity (s : Severity) : option string :=
  severityStrings !! s.

(** ** Test fixtures

    config_test.go runs [Parse] on the files of testdata. The decoder
    below stands for the YAML decoder on documents of that kind: it
    gives the configuration config_test.go expects for them, or the
    decoder's error. *)

Definition doc_target_identifier : Reader :=
  "lava: v1.0.0
targets:
  - identifier: example.com
".

Definition doc_invalid_lava_version : Reader :=
  "lava: 1.0.0
targets:
  - identifier: example.com
".

Definition doc_no_target_identifier : Reader :=
  "lava: v1.0.0
targets:
  - identifier: example.com
  - assetType: DomainName
  - identifier: example.org
".

Definition doc_invalid_severity : Reader :=
  "lava: v1.0.0
report:
  severity: Critical
targets:
  - identifier: example.com
".

(** [io.EOF] *)
Definition io_EOF : error := errors.New "EOF".

Definition target_of (identifier : string) (assetType : AssetType) : Target :=
  mkTarget identifier assetType zero.

(** The decoder fills the fields in document order, so a document that
    fails at [report.severity] has already set [lava]. *)
Definition testdataDecode : Decoder := fun r cfg =>
  if String.eqb r "" then (cfg, Some io_EOF)
  else if String.eqb r doc_target_identifier then
    (withTargets [target_of "example.com" ""] (withVersion "v1.0.0" cfg), None)
  else if String.eqb r doc_invalid_lava_version then
    (withTargets [target_of "example.com" ""] (withVersion "1.0.0" cfg), None)
  else if String.eqb r doc_no_target_identifier then
    (withTargets [target_of "example.com" ""; target_of "" "DomainName";
                  target_of "example.org" ""]
       (withVersion "v1.0.0" cfg), None)
  else if String.eqb r doc_invalid_severity then
    (withVersion "v1.0.0" cfg,
     snd (Severity_UnmarshalYAML (Severity_ (ReportConfig_ cfg))
            (mkNode "Critical")))
  else (cfg, Some (errors.New "yaml: unsupported document")).

(** A document with the version in short form, and the decoder extended
    to it. *)
Definition doc_short_version : string :=
  "lava: v1
targets:
  - identifier: example.com
".

Definition shortVersionDecode : Decoder := fun r cfg =>
  if String.eqb r doc_short_version then
    (withTargets [target_of "example.com" ""] (withVersion "v1" cfg), None)
  else testdataDecode r cfg.

(** [strings.ToLower] on a string of ASCII bytes, the case its fast path
    handles: it is the instance of [ToLower] the examples run with. *)
Definition lowerByte (c : ascii) : ascii :=
  if (("A" <=? c) && (c <=? "Z"))%char
  then ascii_of_nat (nat_of_ascii c + 32)
  else c.

Fixpoint ToLowerASCII (s : string) : string :=
  match s with
  | EmptyString => EmptyString
  | String c s' => String (lowerByte c) (ToLowerASCII s')
  end.

(** ** Auxiliary notions for the proofs about [semver] *)

(** [r] is not empty and its first byte is a digit. *)
Definition startsWithDigit (r : string) : bool :=
  match r with
  | String c _ => SemVer2.digit c
  | EmptyString => false
  end.

(** The part of [s] before its first "+" (all of [s] when it has none),
    and the rest, from that "+" on. *)
Fixpoint beforePlus (s : string) : string :=
  match s with
  | EmptyString => EmptyString
  | String c s' => if (c =? "+")%char then EmptyString else String c (beforePlus s')
  end.

Fixpoint fromPlus (s : string) : string :=
  match s with
  | EmptyString => EmptyString
  | String c s' => if (c =? "+")%char then s else fromPlus s'
  end.

(** A statement about one byte, by running through the 256 bytes. *)
Ltac by_cases_on_byte c :=
  destruct c as [[] [] [] [] [] [] [] []]; vm_compute; intuition congruence.

(** The strings [semver.IsValid] accepts, in terms of the grammar: the
    letter v, then valid semantic version text or one of the short
    forms. *)
Definition acceptedVersion (s : string) : Prop :=
  ∃ t : string, s = String "v" t ∧ (SemVer2.validSemver t ∨ SemVer2.shorthand t).

(** *** Reading a file *)

(** [os.Open(path)]: the bytes the opened file delivers, and the error. *)
Definition Opener : Type := string -> string * option error.

(** [ParseFile] returns a parsed Lava configuration given a path to a
    file. The deferred [f.Close()] drops its result and leaves nothing
    to observe. *)
Definition ParseFile (Open : Opener) (Decode : Decoder) (path : string)
  : Config * option error :=
  let '(f, err) := Open path in
  match err with
  | Some err => (zero, Some (errors.Errorf "open config file: " err ""))
  | None => Parse Decode f
  end.

(** The file system of the fixtures: one file per document. *)
Definition testdataOpen : Opener := fun path =>
  if String.eqb path "testdata/empty.yaml" then ("", None)
  else if String.eqb path "testdata/target_identifier.yaml"
  then (doc_target_identifier, None)
  else if String.eqb path "testdata/invalid_lava_version.yaml"
  then (doc_invalid_lava_version, None)
  else if String.eqb path "testdata/no_target_identifier.yaml"
  then (doc_no_target_identifier, None)
  else if String.eqb path "testdata/invalid_severity.yaml"
  then (doc_invalid_severity, None)
  else ("", Some (errors.New ("open " +:+ path +:+ ": no such file or directory"))).

(** ** Command [lava] (cmd/lava/main.go)

    [main] is modelled by what it does to the outside: the calls it
    makes into the packages [slog], [flag], [help] and [base], what it
    writes to standard error, and how the process ends. A computation
    yields the events so far and either a value or, after [os.Exit], the
    exit status. The calls are taken to return (a callee that exits the
    process ends the run at its event). *)

Module lava.

(** A command of [base.Commands]: the result of its [Name] method, its
    flag set ([Flag.Parse] on the arguments, then [Flag.Args]) and its
    [Run] function. *)
Record Command : Type := mkCommand {
  Name : string;
  Flag_Parse : list string -> list string;
  Run : list string -> option error
}.

(** The events; a command is named by its index in [base.Commands]. *)
Inductive event : Type :=
| SetDefaultLogger
| SetFlagUsage
| FlagParse
| PrintUsage
| Help (args : list string)
| SetCommandUsage (i : nat)
| CommandFlagParse (i : nat) (args : list string)
| CommandRun (i : nat) (args : list string)
| Stderr (text : string).

Definition proc (A : Type) : Type := list event * (A + Z).

Definition ret {A : Type} (a : A) : proc A := ([], inl a).

Definition bind {A B : Type} (m : proc A) (k : A -> proc B) : proc B :=
  match m with
  | (events, inl a) => let '(events', r) := k a in (events ++ events', r)
  | (events, inr status) => (events, inr status)
  end.

Definition emit (e : event) : proc unit := ([e], inl tt).

(** [os.Exit(status)] *)
Definition os_Exit {A : Type} (status : Z) : proc A := ([], inr status).

Notation "x <- m ;; k" := (bind m (fun x => k))
  (at level 100, m at next level, right associativity).
Notation "m ;; k" := (bind m (fun _ => k))
  (at level 100, right associativity).

Definition newline : string := String "010"%char EmptyString.

(** [init] registers the commands: [run.CmdRun] alone. *)
Definition init (CmdRun : Command) : list Command := [CmdRun].

Section Main.

(** The verb [%q] of [fmt]: the quoted form of a string. *)
Variable Quote : string -> string.

(** The [for _, cmd := range base.Commands] loop of [main], entered at
    index [i] with [arg0 = args[0]] and [rest = args[1:]]: [true] when
    [main] has returned from inside the loop. *)
Fixpoint rangeCommands (cmds : list Command) (i : nat) (arg0 : string)
    (rest : list string) : proc bool :=
  match cmds with
  | [] => ret false
  | cmd :: cmds' =>
      emit (SetCommandUsage i) ;;
      if String.eqb (Name cmd) arg0 then
        emit (CommandFlagParse i rest) ;;
        let args := Flag_Parse cmd rest in
        emit (CommandRun i args) ;;
        match Run cmd args with
        | Some err =>
            emit (Stderr ("error: " +:+ errors.Error err +:+ newline)) ;;
            os_Exit 1
        | None => ret true
        end
      else rangeCommands cmds' (S i) arg0 rest
  end.

(** [main], from the commands of [base.Commands] and the arguments
    [flag.Args()] that [flag.Parse()] leaves. *)
Definition main (Commands : list Command) (args : list string) : proc unit :=
  emit SetDefaultLogger ;;
  emit SetFlagUsage ;;
  emit FlagParse ;;
  match args with
  | [] => emit PrintUsage ;; os_Exit 2
  | arg0 :: rest =>
      if String.eqb arg0 "help" then emit (Help rest)
      else
        returned <- rangeCommands Commands 0 arg0 rest ;;
        if returned : bool then ret tt
        else
          emit (Stderr ("lava: unknown command " +:+ Quote arg0 +:+ newline
                        +:+ "Run 'lava help' for usage." +:+ newline)) ;;
          os_Exit 2
  end.

End Main.

(** The events that run a command. *)
Definition isCommandRun (e : event) : bool :=
  match e with
  | CommandRun _ _ => true
  | _ => false
  end.

Definition isStderr (e : event) : bool :=
  match e with
  | Stderr _ => true
  | _ => false
  end.

(** The events that touch the command of index at least [i]. *)
Definition touchesFrom (i : nat) (e : event) : bool :=
  match e with
  | SetCommandUsage j | CommandFlagParse j _ | CommandRun j _ => Nat.leb i j
  | _ => false
  end.

(** [%q] on a string of plain printable bytes: the string between double
    quotes. It is the instance of [Quote] the examples run with. *)
Definition quotePlain (s : string) : string :=
  String "034"%char (s +:+ String "034"%char EmptyString).

End lava.

(** What running the command [cmd] of index [k] on [rest] adds to the
    events, and how it ends. *)
Definition ranCommand (cmd : lava.Command) (k : nat) (rest : list string)
  : list lava.event * (bool + Z) :=
  let args := lava.Flag_Parse cmd rest in
  ([lava.CommandFlagParse k rest; lava.CommandRun k args]
   ++ match lava.Run cmd args with
      | Some err => [lava.Stderr ("error: " +:+ errors.Error err +:+ lava.newline)]
      | None => []
      end,
   match lava.Run cmd args with
   | Some _ => inr 1
   | None => inl true
   end).

(** What [main] does before it looks at the arguments. *)
Definition mainPrelude : list lava.event :=
  [lava.SetDefaultLogger; lava.SetFlagUsage; lava.FlagParse].

(** ** Properties *)

(** *** The severity table *)

Lemma severityNames_other (s : string) :
  s ≠ "critical" → s ≠ "high" → s ≠ "medium" → s ≠ "low" → s ≠ "info" →
  severityNames !! s = None.
Proof.
  intros. unfold severityNames.
  rewrite !lookup_insert_ne by done. apply lookup_empty.
Qed.

Lemma severityNames_Some (s : string) (v : Z) :
  severityNames !! s = Some v →
  s = "critical" ∧ v = SeverityCritical ∨ s = "high" ∧ v = SeverityHigh
  ∨ s = "medium" ∧ v = SeverityMedium ∨ s = "low" ∧ v = SeverityLow
  ∨ s = "info" ∧ v = SeverityInfo.
Proof.
  unfold severityNames. intros H.
  repeat (apply lookup_insert_Some in H as [[<- <-] | [_ H]]; [tauto |]).
  by rewrite lookup_empty in H.
Qed.

Lemma severityNames_keys (name : string) :
  name ∈ severityNameList ↔ is_Some (severityNames !! name).
Proof.
  split.
  - unfold severityNameList. intros H.
    repeat (apply elem_of_cons in H as [-> | H]; [by eexists |]).
    by apply elem_of_nil in H.
  - intros [v H]. unfold severityNameList.
    apply severityNames_Some in H as [[-> _] | [[-> _] | [[-> _] | [[-> _] | [-> _]]]]];
      repeat first [apply list_elem_of_here | apply list_elem_of_further].
Qed.

Lemma parseSeverity_error (s : string) :
  severityNames !! s = None →
  parseSeverity s = (zero, Some (invalidToken ErrInvalidSeverity s)).
Proof. intros H. unfold parseSeverity. by rewrite H. Qed.

Lemma invalidToken_Is (sentinel : error) (token : string) :
  errors.eqb sentinel sentinel = true →
  errors.Is (invalidToken sentinel token) sentinel = true.
Proof.
  intros H. unfold invalidToken. simpl.
  destruct sentinel; simpl in *; rewrite ?H; by rewrite ?orb_true_r.
Qed.

(** C1. [parseSeverity] is a case-sensitive partial map over the five
    lowercase names: "critical" gives rank 1, "high" 0, "medium" -1,
    "low" -2 and "info" -3; every other string gives the zero value and
    an error that wraps [ErrInvalidSeverity] and whose text ends in the
    offending string. *)
Theorem parseSeverity_partial_map :
  parseSeverity "critical" = (1, None) ∧
  parseSeverity "high" = (0, None) ∧
  parseSeverity "medium" = (-1, None) ∧
  parseSeverity "low" = (-2, None) ∧
  parseSeverity "info" = (-3, None) ∧
  ∀ s : string,
    s ≠ "critical" → s ≠ "high" → s ≠ "medium" → s ≠ "low" → s ≠ "info" →
    ∃ err : error,
      parseSeverity s = (zero, Some err) ∧
      errors.Is err ErrInvalidSeverity = true ∧
      errors.Error err = "invalid severity: " +:+ s.
Proof.
  repeat split; try reflexivity.
  intros s H1 H2 H3 H4 H5.
  exists (invalidToken ErrInvalidSeverity s). split; [| split].
  - apply parseSeverity_error. by apply severityNames_other.
  - by apply invalidToken_Is.
  - reflexivity.
Qed.

Lemma parseSeverity_partial_map_witness :
  ∃ err : error,
    parseSeverity "Critical" = (zero, Some err) ∧
    errors.Is err ErrInvalidSeverity = true ∧
    errors.Error err = "invalid severity: Critical".
Proof.
  apply (proj2 (proj2 (proj2 (proj2 (proj2 parseSeverity_partial_map)))) "Critical");
    discriminate.
Defined.

(** *** Validation *)

Lemma validateTargets_None (targets : list Target) :
  validateTargets targets = None ↔ Forall (λ t, Identifier t ≠ "") targets.
Proof.
  induction targets as [| t targets IH]; simpl.
  - split; [constructor | done].
  - destruct (String.eqb_spec (Identifier t) "") as [E | E].
    + split; [done |]. intros H. inversion H; subst. contradiction.
    + rewrite IH. split.
      * by constructor.
      * intros H. by inversion H.
Qed.

Lemma validateTargets_result (targets : list Target) :
  validateTargets targets = None ∨
  validateTargets targets = Some ErrNoTargetIdentifier.
Proof.
  induction targets as [| t targets IH]; simpl; [by left |].
  destruct (String.eqb (Identifier t) ""); [by right | exact IH].
Qed.

(** The loop stops at the first target without identifier: the targets
    that follow it are not looked at. *)
Lemma validateTargets_first (before after : list Target) (target : Target) :
  Forall (λ t, Identifier t ≠ "") before →
  Identifier target = "" →
  validateTargets (before ++ target :: after) = Some ErrNoTargetIdentifier.
Proof.
  intros Hb Ht. induction Hb as [| t before Hne _ IH]; simpl.
  - by rewrite Ht.
  - by apply String.eqb_neq in Hne as ->.
Qed.

Lemma Exists_first_split {A : Type} (P : A → Prop) (l : list A) :
  (∀ x, Decision (P x)) →
  Exists P l →
  ∃ before x after, l = before ++ x :: after ∧ Forall (λ y, ¬ P y) before ∧ P x.
Proof.
  intros Hdec. induction 1 as [x l Hx | y l _ IH].
  - by exists [], x, l.
  - destruct (Hdec y) as [Hy | Hy].
    + by exists [], y, l.
    + destruct IH as (before & x & after & -> & Hb & Hx).
      exists (y :: before), x, after. repeat split; [by constructor | done].
Qed.

Lemma validate_None (c : Config) :
  validate c = None ↔
  semver.IsValid (LavaVersion c) = true ∧ Targets c ≠ [] ∧
  Forall (λ t, Identifier t ≠ "") (Targets c).
Proof.
  unfold validate.
  destruct (semver.IsValid (LavaVersion c)); simpl.
  2: { split; [done | by intros [? _]]. }
  destruct (Targets c) as [| t targets] eqn:E.
  { split; [done | by intros (_ & ? & _)]. }
  change (length (t :: targets) =? 0)%nat with false. cbv iota.
  rewrite validateTargets_None. split; [done | by intros (_ & _ & ?)].
Qed.

(** *** Parse *)

(** C7. Whenever [Parse] returns an error, for a failed decode as for a
    failed validation, the configuration next to it is the zero value,
    also when the decoder had filled part of it before it failed; the
    error wraps the decoder's or the validator's. *)
Theorem Parse_error_zero (Decode : Decoder) (r : Reader) :
  (Parse Decode r).2 ≠ None →
  (Parse Decode r).1 = zero ∧
  ((∃ e, (Decode r zero).2 = Some e ∧
         (Parse Decode r).2 = Some (errors.Errorf "decode config: " e ""))
   ∨ (∃ e, (Decode r zero).2 = None ∧ validate (Decode r zero).1 = Some e ∧
           (Parse Decode r).2 = Some (errors.Errorf "validate config: " e ""))).
Proof.
  unfold Parse. intros H.
  destruct (Decode r zero) as [cfg' [e |]]; simpl in *.
  - split; [done |]. left. by exists e.
  - destruct (validate cfg') as [e |] eqn:Hv; simpl in *; [| done].
    split; [done |]. right. by exists e.
Qed.

Lemma Parse_error_zero_witness :
  (testdataDecode doc_invalid_severity zero).1
    = mkConfig "v1.0.0" zero zero [] [] 0 ∧
  (Parse testdataDecode doc_invalid_severity).2
    = Some (errors.Errorf "decode config: "
              (invalidToken ErrInvalidSeverity "Critical") "") ∧
  (Parse testdataDecode doc_invalid_severity).1 = zero.
Proof.
  split; [reflexivity |]. split; [reflexivity |].
  apply (proj1 (Parse_error_zero testdataDecode doc_invalid_severity
                  ltac:(discriminate))).
Defined.

(** The cases of [TestParse] (config_test.go) that the fixtures cover:
    the configuration is compared with the expected one and the error
    with [errors.Is]. *)
Example Parse_testdata :
  let run r := let '(cfg, err) := Parse testdataDecode r in
               (cfg, from_option (λ e, Some (errors.Is e io_EOF,
                                         errors.Is e ErrInvalidLavaVersion,
                                         errors.Is e ErrNoTargetIdentifier,
                                         errors.Is e ErrInvalidSeverity)) None err) in
  run "" = (zero, Some (true, false, false, false)) ∧
  run doc_invalid_lava_version = (zero, Some (false, true, false, false)) ∧
  run doc_no_target_identifier = (zero, Some (false, false, true, false)) ∧
  run doc_invalid_severity = (zero, Some (false, false, false, true)) ∧
  run doc_target_identifier
  = (mkConfig "v1.0.0" zero zero [] [mkTarget "example.com" "" ∅] 0, None).
Proof. repeat split. Qed.

(** *** Field decoding *)

(** C10. When [UnmarshalYAML] of a [Severity] or of an [OutputFormat]
    returns an error, the value the receiver points to is the one it
    held before the call; it does so exactly when the token is not in
    the name table, and otherwise the receiver holds the table's value. *)
Theorem UnmarshalYAML_atomic (ToLower : string → string) (value : Node) :
  (∀ s : Z,
     match severityNames !! Value value with
     | None => ∃ err, Severity_UnmarshalYAML s value = (s, Some err)
     | Some val => Severity_UnmarshalYAML s value = (val, None)
     end) ∧
  (∀ f : Z,
     match outputFormatNames !! ToLower (Value value) with
     | None => ∃ err, OutputFormat_UnmarshalYAML ToLower f value = (f, Some err)
     | Some val => OutputFormat_UnmarshalYAML ToLower f value = (val, None)
     end) ∧
  (∀ s : Z, (Severity_UnmarshalYAML s value).2 ≠ None →
            (Severity_UnmarshalYAML s value).1 = s) ∧
  (∀ f : Z, (OutputFormat_UnmarshalYAML ToLower f value).2 ≠ None →
            (OutputFormat_UnmarshalYAML ToLower f value).1 = f).
Proof.
  unfold Severity_UnmarshalYAML, OutputFormat_UnmarshalYAML,
    parseSeverity, parseOutputFormat.
  repeat split.
  - intros s. destruct (severityNames !! Value value); eauto.
  - intros f. destruct (outputFormatNames !! ToLower (Value value)); eauto.
  - intros s. by destruct (severityNames !! Value value).
  - intros f. by destruct (outputFormatNames !! ToLower (Value value)).
Qed.

Lemma UnmarshalYAML_atomic_witness :
  Severity_UnmarshalYAML SeverityCritical (mkNode "Critical")
    = (SeverityCritical, Some (invalidToken ErrInvalidSeverity "Critical")) ∧
  (Severity_UnmarshalYAML SeverityCritical (mkNode "Critical")).1
    = SeverityCritical ∧
  (OutputFormat_UnmarshalYAML ToLowerASCII 7 (mkNode "XML")).1 = 7.
Proof.
  split; [reflexivity |]. split.
  - apply (proj1 (proj2 (proj2 (UnmarshalYAML_atomic ToLowerASCII (mkNode "Critical"))))
             SeverityCritical).
    discriminate.
  - apply (proj2 (proj2 (proj2 (UnmarshalYAML_atomic ToLowerASCII (mkNode "XML")))) 7).
    discriminate.
Defined.

Example parseOutputFormat_samples :
  parseOutputFormat ToLowerASCII "json" = (OutputFormatJSON, None) ∧
  parseOutputFormat ToLowerASCII "JSON" = (OutputFormatJSON, None) ∧
  parseOutputFormat ToLowerASCII "xml"
  = (zero, Some (invalidToken ErrInvalidOutputFormat "xml")).
Proof. repeat split. Qed.

(** *** Severity encoding *)

Lemma parseSeverity_ok (name : string) (sev : Z) :
  parseSeverity name = (sev, None) ↔ severityNames !! name = Some sev.
Proof.
  unfold parseSeverity. destruct (severityNames !! name); split; congruence.
Qed.

(** C8. Decoding one of the five severity names and encoding the value
    again gives the name back, and the five names do decode; a string
    that is none of them fails with an error that wraps
    [ErrInvalidSeverity]. *)
Theorem severity_roundtrip :
  (∀ (name : string) (sev : Z),
     parseSeverity name = (sev, None) → encodeSeverity sev = Some name) ∧
  (∀ name : string, name ∈ severityNameList →
     ∃ sev : Z, parseSeverity name = (sev, None) ∧ encodeSeverity sev = Some name) ∧
  (∀ s : string, s ∉ severityNameList →
     ∃ err : error, parseSeverity s = (zero, Some err) ∧
                    errors.Is err ErrInvalidSeverity = true).
Proof.
  split; [| split].
  - intros name sev H. apply parseSeverity_ok, severityNames_Some in H.
    destruct H as [[-> ->] | [[-> ->] | [[-> ->] | [[-> ->] | [-> ->]]]]];
      reflexivity.
  - intros name H. unfold severityNameList in H.
    repeat (apply elem_of_cons in H as [-> | H]; [eexists; split; reflexivity |]).
    by apply elem_of_nil in H.
  - intros s H. exists (invalidToken ErrInvalidSeverity s). split.
    + apply parseSeverity_error, severityNames_other;
        intros ->; apply H; unfold severityNameList;
        repeat first [apply list_elem_of_here | apply list_elem_of_further].
    + by apply invalidToken_Is.
Qed.

Lemma severity_roundtrip_witness :
  parseSeverity "medium" = (SeverityMedium, None) ∧
  encodeSeverity SeverityMedium = Some "medium".
Proof.
  split; [reflexivity |].
  apply (proj1 severity_roundtrip "medium" SeverityMedium). reflexivity.
Defined.

(** *** Report filters *)

Lemma fieldMatches_spec (rule field : string) :
  fieldMatches rule field = true ↔ (rule ≠ "" → rule = field).
Proof.
  unfold fieldMatches.
  destruct (String.eqb_spec rule "") as [-> | Hne].
  - split; [intros _ H; by destruct H | done].
  - rewrite String.eqb_eq. split; [by intros -> | by intros H; apply H].
Qed.

Lemma ruleMatches_spec (e : Exclusion) (f : Finding) :
  ruleMatches e f = true ↔
  (Target_ e ≠ "" → Target_ e = targetName f) ∧
  (Resource e ≠ "" → Resource e = resourceName f) ∧
  (Fingerprint e ≠ "" → Fingerprint e = fingerprint f).
Proof.
  unfold ruleMatches. rewrite !andb_true_iff, !fieldMatches_spec. tauto.
Qed.

(** The rule the matcher surfaces is the first one that matches. *)
Lemma matchedExclusion_Some (exclusions : list Exclusion) (f : Finding) (e : Exclusion) :
  matchedExclusion exclusions f = Some e ↔
  ∃ before after, exclusions = before ++ e :: after ∧
    ruleMatches e f = true ∧ Forall (λ e', ruleMatches e' f = false) before.
Proof.
  revert e. induction exclusions as [| e0 exclusions IH]; intros e; simpl.
  - split; [done |]. intros ([| ? ?] & ? & ? & _); discriminate.
  - destruct (ruleMatches e0 f) eqn:Hm.
    + split.
      * intros [= <-]. by exists [], exclusions.
      * intros ([| e1 before] & after & E & He & Hb); simplify_eq/=; [done |].
        inversion Hb; congruence.
    + rewrite IH. split.
      * intros (before & after & -> & He & Hb).
        exists (e0 :: before), after. by repeat constructor.
      * intros ([| e1 before] & after & E & He & Hb); simplify_eq/=; [congruence |].
        exists before, after. inversion Hb; by subst.
Qed.

Lemma suppressed_existsb (exclusions : list Exclusion) (f : Finding) :
  suppressed exclusions f = existsb (λ e, ruleMatches e f) exclusions.
Proof.
  unfold suppressed. induction exclusions as [| e exclusions IH]; simpl; [done |].
  by destruct (ruleMatches e f).
Qed.

(** C5. A finding is suppressed if and only if some rule of the list
    matches it, a rule matching exactly when each of its non-empty
    fields among target, resource and fingerprint equals the finding's
    field; so a list that holds a rule with the three fields empty
    suppresses every finding. *)
Theorem suppressed_iff (exclusions : list Exclusion) (f : Finding) :
  (suppressed exclusions f = true ↔
   ∃ e : Exclusion, e ∈ exclusions ∧
     (Target_ e ≠ "" → Target_ e = targetName f) ∧
     (Resource e ≠ "" → Resource e = resourceName f) ∧
     (Fingerprint e ≠ "" → Fingerprint e = fingerprint f)) ∧
  (∀ e : Exclusion, e ∈ exclusions →
     Target_ e = "" → Resource e = "" → Fingerprint e = "" →
     suppressed exclusions f = true).
Proof.
  assert (Hiff : suppressed exclusions f = true ↔
                 ∃ e, e ∈ exclusions ∧ ruleMatches e f = true).
  { rewrite suppressed_existsb, existsb_exists.
    by setoid_rewrite list_elem_of_In. }
  split.
  - rewrite Hiff. by setoid_rewrite ruleMatches_spec.
  - intros e He Ht Hr Hf. apply Hiff. exists e. split; [done |].
    apply ruleMatches_spec. rewrite Ht, Hr, Hf. done.
Qed.

Lemma suppressed_iff_witness :
  suppressed [mkExclusion "example.com" "" "" "accepted risk" ""]
    (mkFinding "example.com" "/login" "f00d" SeverityHigh) = true ∧
  suppressed [mkExclusion "example.com" "" "" "accepted risk" ""]
    (mkFinding "other.com" "/login" "f00d" SeverityHigh) = false ∧
  suppressed [mkExclusion "example.com" "" "" "accepted risk" ""]
    (mkFinding "Example.com" "/login" "f00d" SeverityHigh) = false ∧
  suppressed [mkExclusion "example.com" "" "" ""  ""; mkExclusion "" "" "" "all" ""]
    (mkFinding "other.com" "/" "beef" SeverityInfo) = true.
Proof.
  do 3 (split; [reflexivity |]).
  apply (proj2 (suppressed_iff
                  [mkExclusion "example.com" "" "" ""  ""; mkExclusion "" "" "" "all" ""]
                  (mkFinding "other.com" "/" "beef" SeverityInfo))
           (mkExclusion "" "" "" "all" ""));
    [apply list_elem_of_further, list_elem_of_here | reflexivity ..].
Defined.

(** C6. A finding is reportable if and only if the integer rank of its
    severity is greater than or equal to that of the minimum severity,
    the ranks being Info -3, Low -2, Medium -1, High 0, Critical 1;
    with minimum High a Medium finding is not reportable and a Critical
    one is. *)
Theorem reportable_iff_rank (f m : Z) :
  (reportable f m = true ↔ rank f >= rank m) ∧
  rank SeverityInfo = -3 ∧ rank SeverityLow = -2 ∧ rank SeverityMedium = -1 ∧
  rank SeverityHigh = 0 ∧ rank SeverityCritical = 1 ∧
  rank SeverityInfo < rank SeverityLow < rank SeverityMedium ∧
  rank SeverityMedium < rank SeverityHigh < rank SeverityCritical ∧
  reportable SeverityMedium SeverityHigh = false ∧
  reportable SeverityCritical SeverityHigh = true.
Proof.
  unfold reportable, rank. rewrite Z.geb_le.
  repeat split; try reflexivity; lia.
Qed.

(** ** [semver.IsValid] against the grammar *)

(** *** Bytes and strings *)

#[local] Arguments String.append !s1 s2 : simpl nomatch.

Lemma isDigit_digit (c : ascii) : semver.isDigit c = SemVer2.digit c.
Proof. by_cases_on_byte c. Qed.

Lemma isIdentChar_identifierCharacter (c : ascii) :
  semver.isIdentChar c = SemVer2.identifierCharacter c.
Proof. by_cases_on_byte c. Qed.

Lemma outside_digits (c : ascii) :
  ((c <? "0") || ("9" <? c))%char = negb (SemVer2.digit c).
Proof. by_cases_on_byte c. Qed.

Lemma digit_identifierCharacter (c : ascii) :
  SemVer2.digit c = true → SemVer2.identifierCharacter c = true.
Proof. by_cases_on_byte c. Qed.

Lemma identifierCharacter_marks (c : ascii) :
  SemVer2.identifierCharacter c = true →
  (c =? ".")%char = false ∧ (c =? "+")%char = false.
Proof. by_cases_on_byte c. Qed.

Lemma append_assoc (a b c : string) : (a +:+ b) +:+ c = a +:+ (b +:+ c).
Proof. induction a as [| x a IH]; simpl; [done | by rewrite IH]. Qed.

Lemma append_nil_r (a : string) : a +:+ "" = a.
Proof. induction a as [| x a IH]; simpl; [done | by rewrite IH]. Qed.

Lemma length_append (a b : string) :
  String.length (a +:+ b) = (String.length a + String.length b)%nat.
Proof. induction a as [| x a IH]; simpl; [done | by rewrite IH]. Qed.

Lemma slice_to_app (a b : string) : slices.slice_to (String.length a) (a +:+ b) = a.
Proof. induction a as [| x a IH]; simpl; [by destruct b | by rewrite IH]. Qed.

Lemma slice_from_app (a b : string) : slices.slice_from (String.length a) (a +:+ b) = b.
Proof. induction a as [| x a IH]; simpl; [by destruct b | by rewrite IH]. Qed.

Lemma slice_app (a b c : string) :
  slices.slice (String.length a) (String.length a + String.length b) (a +:+ b +:+ c) = b.
Proof.
  unfold slices.slice. rewrite slice_from_app.
  replace (String.length a + String.length b - String.length a)%nat
    with (String.length b) by lia.
  apply slice_to_app.
Qed.

Lemma all_app (P : ascii → bool) (a b : string) :
  SemVer2.all P (a +:+ b) = SemVer2.all P a && SemVer2.all P b.
Proof. induction a as [| x a IH]; simpl; [done | by rewrite IH, andb_assoc]. Qed.

(** *** Numbers *)

Lemma skipDigits_app (d r : string) (i : nat) :
  SemVer2.all SemVer2.digit d = true → startsWithDigit r = false →
  semver.skipDigits (d +:+ r) i = (i + String.length d)%nat.
Proof.
  intros Hd Hr. revert i.
  induction d as [| c d IH]; intros i; simpl in *.
  - destruct r as [| c r]; simpl in *; [lia |].
    rewrite isDigit_digit, Hr. lia.
  - apply andb_true_iff in Hd as [Hc Hd].
    rewrite isDigit_digit, Hc, IH by done. lia.
Qed.

Lemma digits_split (rest : string) :
  ∃ d r : string, rest = d +:+ r ∧ SemVer2.all SemVer2.digit d = true ∧
                  startsWithDigit r = false.
Proof.
  induction rest as [| c rest (d & r & -> & Hd & Hr)].
  - by exists "", "".
  - destruct (SemVer2.digit c) eqn:Hc.
    + exists (String c d), r. simpl. by rewrite Hc, Hd.
    + exists "", (String c (d +:+ r)). by simpl.
Qed.

Lemma parseInt_iff (v t r : string) :
  semver.parseInt v = Some (t, r) ↔
  v = t +:+ r ∧ SemVer2.numericIdentifier t = true ∧ startsWithDigit r = false.
Proof.
  split.
  - destruct v as [| c0 v1]; simpl; [done |].
    rewrite outside_digits.
    destruct (SemVer2.digit c0) eqn:Hc0; simpl; [| done].
    destruct (digits_split v1) as (d & r' & -> & Hd & Hr).
    rewrite skipDigits_app by done.
    change (String c0 (d +:+ r')) with (String c0 d +:+ r').
    change (1 + String.length d)%nat with (String.length (String c0 d)).
    rewrite slice_to_app, slice_from_app.
    destruct ((c0 =? "0")%char && negb (String.length (String c0 d) =? 1)%nat) eqn:Hz;
      [done |].
    intros [= <- <-]. repeat split; [| done].
    simpl. rewrite Hc0, Hd. simpl.
    apply andb_false_iff in Hz as [-> | Hz]; [done |].
    apply negb_false_iff, Nat.eqb_eq in Hz. simpl in Hz.
    destruct d; [| done]. by rewrite orb_true_r.
  - intros (-> & Ht & Hr).
    destruct t as [| c0 d]; simpl in *; [done |].
    apply andb_true_iff in Ht as [Ht Hz]. apply andb_true_iff in Ht as [Hc0 Hd].
    rewrite outside_digits, Hc0. simpl.
    rewrite skipDigits_app by done.
    change (String c0 (d +:+ r)) with (String c0 d +:+ r).
    change (1 + String.length d)%nat with (String.length (String c0 d)).
    rewrite slice_to_app, slice_from_app.
    destruct ((c0 =? "0")%char && negb (String.length (String c0 d) =? 1)%nat) eqn:Hz';
      [| done].
    apply andb_true_iff in Hz' as [Hz1 Hz2]. rewrite Hz1 in Hz. simpl in Hz.
    apply String.eqb_eq in Hz as ->. done.
Qed.

(** *** Identifiers *)

Lemma numericIdentifier_digits (s : string) :
  SemVer2.numericIdentifier s = true → SemVer2.all SemVer2.digit s = true.
Proof.
  destruct s as [| c s]; simpl; [done |].
  intros H. apply andb_true_iff in H as [H _]. exact H.
Qed.

Lemma digits_identifierCharacters (s : string) :
  SemVer2.all SemVer2.digit s = true →
  SemVer2.all SemVer2.identifierCharacter s = true.
Proof.
  induction s as [| c s IH]; simpl; [done |].
  intros H. apply andb_true_iff in H as [Hc Hs].
  by rewrite digit_identifierCharacter, IH.
Qed.

Lemma prereleaseIdentifier_characters (s : string) :
  SemVer2.prereleaseIdentifier s = true →
  SemVer2.all SemVer2.identifierCharacter s = true.
Proof.
  unfold SemVer2.prereleaseIdentifier, SemVer2.alphanumericIdentifier.
  intros H. apply orb_true_iff in H as [H | H].
  - by apply andb_true_iff in H as [H _].
  - by apply digits_identifierCharacters, numericIdentifier_digits.
Qed.

Lemma buildIdentifier_characters (s : string) :
  SemVer2.buildIdentifier s = true →
  SemVer2.all SemVer2.identifierCharacter s = true.
Proof.
  unfold SemVer2.buildIdentifier, SemVer2.alphanumericIdentifier.
  intros H. apply orb_true_iff in H as [H | H].
  - by apply andb_true_iff in H as [H _].
  - apply andb_true_iff in H as [_ H]. by apply digits_identifierCharacters.
Qed.

(** On a non-empty run of identifier characters, [isBadNum] is the
    negation of the grammar's pre-release identifier. *)
Lemma isBadNum_prereleaseIdentifier (s : string) :
  s ≠ "" → SemVer2.all SemVer2.identifierCharacter s = true →
  semver.isBadNum s = negb (SemVer2.prereleaseIdentifier s).
Proof.
  intros Hne Hid.
  unfold semver.isBadNum, SemVer2.prereleaseIdentifier, SemVer2.alphanumericIdentifier.
  rewrite Hid. simpl.
  destruct (digits_split s) as (d & r & -> & Hd & Hr).
  rewrite (skipDigits_app d r 0) by done. simpl.
  rewrite length_append, all_app, Hd. simpl.
  destruct r as [| c r]; simpl in *.
  - rewrite append_nil_r in *. rewrite Nat.add_0_r, Nat.eqb_refl. simpl.
    destruct d as [| c d]; [done |]. simpl in *.
    apply andb_true_iff in Hd as [Hc Hd]. rewrite Hc, Hd. simpl.
    destruct d as [| c' d]; simpl.
    + by rewrite orb_true_r.
    + rewrite orb_false_r. by destruct (c =? "0")%char.
  - rewrite Hr. simpl.
    replace (String.length d =? String.length d + S (String.length r))%nat
      with false; [done |].
    symmetry. apply Nat.eqb_neq. lia.
Qed.

Lemma buildIdentifier_nonempty (s : string) :
  SemVer2.all SemVer2.identifierCharacter s = true →
  SemVer2.buildIdentifier s = negb (String.eqb s "").
Proof.
  intros Hid.
  unfold SemVer2.buildIdentifier, SemVer2.alphanumericIdentifier.
  rewrite Hid. simpl.
  destruct s as [| c s]; [done |].
  change (String.eqb (String c s) "") with false. simpl.
  by destruct (SemVer2.digit c && SemVer2.all SemVer2.digit s).
Qed.

(** *** Dot-separated identifiers *)

Lemma split_cons (sep : ascii) (s : string) :
  ∃ piece pieces, SemVer2.split sep s = piece :: pieces.
Proof.
  destruct s as [| c s]; simpl; [by eexists _, _ |].
  destruct (c =? sep)%char; [by eexists _, _ |].
  destruct (SemVer2.split sep s); by eexists _, _.
Qed.

Lemma split_app_identifier (cur s : string) :
  SemVer2.all SemVer2.identifierCharacter cur = true →
  SemVer2.split "." (cur +:+ s)
  = (cur +:+ hd "" (SemVer2.split "." s)) :: tl (SemVer2.split "." s).
Proof.
  induction cur as [| c cur IH]; simpl; intros H.
  - by destruct (split_cons "." s) as (piece & pieces & ->).
  - apply andb_true_iff in H as [Hc H].
    apply identifierCharacter_marks in Hc as [-> _].
    by rewrite IH.
Qed.

Lemma dotSeparated_end (P : string → bool) (cur : string) :
  SemVer2.all SemVer2.identifierCharacter cur = true →
  SemVer2.dotSeparated P cur = P cur.
Proof.
  intros H. unfold SemVer2.dotSeparated.
  rewrite <- (append_nil_r cur) at 1. rewrite split_app_identifier by done.
  simpl. by rewrite append_nil_r, andb_true_r.
Qed.

Lemma dotSeparated_dot (P : string → bool) (cur s : string) :
  SemVer2.all SemVer2.identifierCharacter cur = true →
  SemVer2.dotSeparated P (cur +:+ String "." s)
  = P cur && SemVer2.dotSeparated P s.
Proof.
  intros H. unfold SemVer2.dotSeparated.
  rewrite split_app_identifier by done. simpl. by rewrite append_nil_r.
Qed.

Lemma dotSeparated_other (P : string → bool) (cur s : string) (c : ascii) :
  (∀ x, P x = true → SemVer2.all SemVer2.identifierCharacter x = true) →
  SemVer2.all SemVer2.identifierCharacter cur = true →
  SemVer2.identifierCharacter c = false → (c =? ".")%char = false →
  SemVer2.dotSeparated P (cur +:+ String c s) = false.
Proof.
  intros HP H Hc Hdot. unfold SemVer2.dotSeparated.
  rewrite split_app_identifier by done. simpl. rewrite Hdot.
  apply andb_false_iff. left.
  destruct (P _) eqn:E; [| done].
  apply HP in E. rewrite all_app in E.
  apply andb_true_iff in E as [_ E].
  destruct (SemVer2.split "." s); simpl in E; by rewrite Hc in E.
Qed.

Lemma all_split (Q : ascii → bool) (s : string) :
  Q "."%char = true →
  SemVer2.all Q s = forallb (SemVer2.all Q) (SemVer2.split "." s).
Proof.
  intros Hdot. induction s as [| c s IH]; simpl; [done |].
  destruct (Ascii.eqb_spec c ".") as [-> | Hc]; simpl.
  - by rewrite Hdot, IH.
  - rewrite IH. destruct (SemVer2.split "." s); simpl;
      [by rewrite !andb_true_r | by rewrite andb_assoc].
Qed.

Lemma dotSeparated_characters (P : string → bool) (s : string) :
  (∀ x, P x = true → SemVer2.all SemVer2.identifierCharacter x = true) →
  SemVer2.dotSeparated P s = true →
  SemVer2.all (λ c, SemVer2.identifierCharacter c || (c =? ".")%char) s = true.
Proof.
  intros HP H. rewrite all_split by done.
  unfold SemVer2.dotSeparated in H.
  rewrite forallb_forall in *. intros x Hx.
  specialize (HP x (H x Hx)). clear H Hx.
  induction x as [| c x IH]; simpl in *; [done |].
  apply andb_true_iff in HP as [-> HP]. simpl. by apply IH.
Qed.

(** *** The loops of [parsePrerelease] and [parseBuild] *)

Lemma beforePlus_fromPlus (s : string) : s = beforePlus s +:+ fromPlus s.
Proof.
  induction s as [| c s IH]; simpl; [done |].
  destruct (c =? "+")%char; simpl; [done | by rewrite <- IH].
Qed.

Lemma fromPlus_start (s : string) :
  fromPlus s = "" ∨ semver.startsWith "+" (fromPlus s) = true.
Proof.
  induction s as [| c s IH]; simpl; [by left |].
  destruct (c =? "+")%char eqn:E; [right; simpl; by rewrite E | exact IH].
Qed.

Lemma beforePlus_app (x r : string) :
  SemVer2.all (λ c, SemVer2.identifierCharacter c || (c =? ".")%char) x = true →
  r = "" ∨ semver.startsWith "+" r = true →
  beforePlus (x +:+ r) = x ∧ fromPlus (x +:+ r) = r.
Proof.
  intros Hx Hr. induction x as [| c x IH]; simpl in *.
  - destruct Hr as [-> | Hr]; [done |].
    destruct r as [| c r]; simpl in *; [done |]. by rewrite Hr.
  - apply andb_true_iff in Hx as [Hc Hx].
    replace (c =? "+")%char with false.
    + destruct (IH Hx) as [-> ->]. done.
    + symmetry. apply orb_true_iff in Hc as [Hc | Hc].
      * by apply identifierCharacter_marks in Hc as [_ ->].
      * apply Ascii.eqb_eq in Hc as ->. done.
Qed.

Lemma prerelease_check (v pfx cur rest : string) (i start : nat) :
  v = pfx +:+ cur +:+ rest →
  start = String.length pfx → i = (start + String.length cur)%nat →
  SemVer2.all SemVer2.identifierCharacter cur = true →
  Nat.eqb start i || semver.isBadNum (slices.slice start i v)
  = negb (SemVer2.prereleaseIdentifier cur).
Proof.
  intros -> -> -> Hcur. rewrite slice_app.
  destruct cur as [| c cur].
  - simpl. by rewrite Nat.add_0_r, Nat.eqb_refl.
  - replace (String.length pfx =? String.length pfx + String.length (String c cur))%nat
      with false by (symmetry; apply Nat.eqb_neq; simpl; lia).
    by rewrite isBadNum_prereleaseIdentifier.
Qed.

Lemma prereleaseLoop_spec {A : Type} (K : nat → option A) (v rest : string) :
  ∀ (pfx cur : string) (i start : nat),
    v = pfx +:+ cur +:+ rest →
    start = String.length pfx → i = (start + String.length cur)%nat →
    SemVer2.all SemVer2.identifierCharacter cur = true →
    match semver.prereleaseLoop v rest i start with
    | None => None
    | Some (i', start') =>
        if Nat.eqb start' i' || semver.isBadNum (slices.slice start' i' v)
        then None else K i'
    end
    = if SemVer2.dotSeparated SemVer2.prereleaseIdentifier (cur +:+ beforePlus rest)
      then K (i + String.length (beforePlus rest))%nat
      else None.
Proof.
  induction rest as [| c rest IH]; intros pfx cur i start Hv Hstart Hi Hcur.
  - simpl. rewrite append_nil_r, Nat.add_0_r, dotSeparated_end by done.
    rewrite (prerelease_check v pfx cur "") by done.
    by destruct (SemVer2.prereleaseIdentifier cur).
  - simpl semver.prereleaseLoop. simpl beforePlus.
    destruct (c =? "+")%char eqn:Hplus.
    { rewrite append_nil_r, Nat.add_0_r, dotSeparated_end by done.
      rewrite (prerelease_check v pfx cur (String c rest)) by done.
      by destruct (SemVer2.prereleaseIdentifier cur). }
    rewrite isIdentChar_identifierCharacter.
    destruct (SemVer2.identifierCharacter c) eqn:Hid; simpl.
    + apply identifierCharacter_marks in Hid as Hm. destruct Hm as [Hdot _].
      rewrite Hdot.
      rewrite (IH pfx (cur +:+ String c "") (S i) start).
      * rewrite append_assoc. simpl. by rewrite Nat.add_succ_r.
      * by rewrite Hv, !append_assoc.
      * done.
      * rewrite length_append. simpl. lia.
      * rewrite all_app, Hcur. simpl. by rewrite Hid.
    + destruct (c =? ".")%char eqn:Hdot; simpl.
      * apply Ascii.eqb_eq in Hdot as ->.
        rewrite dotSeparated_dot by done.
        rewrite (prerelease_check v pfx cur (String "." rest)) by done.
        destruct (SemVer2.prereleaseIdentifier cur); simpl; [| done].
        rewrite (IH (pfx +:+ cur +:+ ".") "" (S i) (S i)).
        -- simpl. by rewrite Nat.add_succ_r.
        -- by rewrite Hv, !append_assoc.
        -- rewrite !length_append. simpl. lia.
        -- simpl. lia.
        -- done.
      * rewrite dotSeparated_other; try done.
        apply prereleaseIdentifier_characters.
Qed.

Lemma buildLoop_spec {A : Type} (K : nat → option A) (rest : string) :
  ∀ (cur : string) (i start : nat),
    i = (start + String.length cur)%nat →
    SemVer2.all SemVer2.identifierCharacter cur = true →
    match semver.buildLoop rest i start with
    | None => None
    | Some (i', start') => if Nat.eqb start' i' then None else K i'
    end
    = if SemVer2.dotSeparated SemVer2.buildIdentifier (cur +:+ rest)
      then K (i + String.length rest)%nat
      else None.
Proof.
  assert (Hcheck : ∀ (cur : string) (i start : nat),
    i = (start + String.length cur)%nat →
    SemVer2.all SemVer2.identifierCharacter cur = true →
    Nat.eqb start i = negb (SemVer2.buildIdentifier cur)).
  { intros cur i start -> Hcur. rewrite buildIdentifier_nonempty by done.
    destruct cur as [| c cur]; simpl.
    - by rewrite Nat.add_0_r, Nat.eqb_refl.
    - apply Nat.eqb_neq. lia. }
  induction rest as [| c rest IH]; intros cur i start Hi Hcur.
  - simpl. rewrite append_nil_r, Nat.add_0_r, dotSeparated_end by done.
    rewrite (Hcheck cur) by done.
    by destruct (SemVer2.buildIdentifier cur).
  - simpl semver.buildLoop.
    rewrite isIdentChar_identifierCharacter.
    destruct (SemVer2.identifierCharacter c) eqn:Hid; simpl.
    + apply identifierCharacter_marks in Hid as Hm. destruct Hm as [Hdot _].
      rewrite Hdot.
      rewrite (IH (cur +:+ String c "") (S i) start).
      * rewrite append_assoc. simpl. by rewrite Nat.add_succ_r.
      * rewrite length_append. simpl. lia.
      * rewrite all_app, Hcur. simpl. by rewrite Hid.
    + destruct (c =? ".")%char eqn:Hdot; simpl.
      * apply Ascii.eqb_eq in Hdot as ->.
        rewrite dotSeparated_dot by done.
        rewrite (Hcheck cur) by done.
        destruct (SemVer2.buildIdentifier cur); simpl; [| done].
        rewrite (IH "" (S i) (S i)).
        -- simpl. by rewrite Nat.add_succ_r.
        -- simpl. lia.
        -- done.
      * rewrite dotSeparated_other; try done.
        apply buildIdentifier_characters.
Qed.

(** *** [parsePrerelease] and [parseBuild] against the grammar *)

Lemma slice_cons (c : ascii) (a b : string) :
  slices.slice_to (1 + String.length a) (String c (a +:+ b)) = String c a ∧
  slices.slice_from (1 + String.length a) (String c (a +:+ b)) = b.
Proof. simpl. by rewrite slice_to_app, slice_from_app. Qed.

Lemma parsePrerelease_iff (v t r : string) :
  semver.parsePrerelease v = Some (t, r) ↔
  ∃ x : string, v = String "-" (x +:+ r) ∧ t = String "-" x ∧
    SemVer2.dotSeparated SemVer2.prereleaseIdentifier x = true ∧
    (r = "" ∨ semver.startsWith "+" r = true).
Proof.
  destruct v as [| c0 v1]; simpl.
  { split; [done | by intros (x & ? & _)]. }
  destruct (Ascii.eqb_spec c0 "-") as [-> | Hc0]; simpl.
  2: { split; [done | intros (x & [= ? _] & _); done]. }
  rewrite (prereleaseLoop_spec
             (λ i, Some (slices.slice_to i (String "-" v1),
                         slices.slice_from i (String "-" v1)))
             (String "-" v1) v1 "-" "" 1 1) by done.
  simpl (_ +:+ _).
  split.
  - destruct (SemVer2.dotSeparated _ _) eqn:Hds; [| done].
    pose proof (fromPlus_start v1) as Hr.
    pose proof (beforePlus_fromPlus v1) as E.
    destruct (slice_cons "-" (beforePlus v1) (fromPlus v1)) as [E1 E2].
    rewrite <- E in E1, E2. rewrite E1, E2.
    intros [= <- <-]. exists (beforePlus v1). by rewrite <- E.
  - intros (x & [= ->] & -> & Hds & Hr).
    destruct (beforePlus_app x r) as [-> _]; [| done |].
    { eapply dotSeparated_characters; [| exact Hds].
      apply prereleaseIdentifier_characters. }
    rewrite Hds. by destruct (slice_cons "-" x r) as [-> ->].
Qed.

Lemma parseBuild_iff (v t r : string) :
  semver.parseBuild v = Some (t, r) ↔
  ∃ y : string, v = String "+" y ∧ t = v ∧ r = "" ∧
    SemVer2.dotSeparated SemVer2.buildIdentifier y = true.
Proof.
  destruct v as [| c0 v1]; simpl.
  { split; [done | by intros (y & ? & _)]. }
  destruct (Ascii.eqb_spec c0 "+") as [-> | Hc0]; simpl.
  2: { split; [done | intros (y & [= ? _] & _); done]. }
  rewrite (buildLoop_spec
             (λ i, Some (slices.slice_to i (String "+" v1),
                         slices.slice_from i (String "+" v1)))
             v1 "" 1 1) by done.
  simpl (_ +:+ _).
  destruct (slice_cons "+" v1 "") as [E1 E2].
  rewrite append_nil_r in E1, E2. rewrite E1, E2.
  split.
  - destruct (SemVer2.dotSeparated _ _) eqn:Hds; [| done].
    intros [= <- <-]. by exists v1.
  - intros (y & [= ->] & -> & -> & Hds). by rewrite Hds.
Qed.

(** *** [parse] against the grammar *)

#[local] Arguments semver.parseInt : simpl never.
#[local] Arguments semver.parsePrerelease : simpl never.
#[local] Arguments semver.parseBuild : simpl never.
#[local] Arguments semver.parseSuffix : simpl never.

Lemma optionalPart_cases (c : ascii) (P : string → bool) (s : string) :
  SemVer2.optionalPart c P s = true ↔
  s = "" ∨ ∃ x, s = String c x ∧ SemVer2.dotSeparated P x = true.
Proof.
  destruct s as [| c' x]; simpl.
  - split; [by left | done].
  - rewrite andb_true_iff, Ascii.eqb_eq. split.
    + intros [-> H]. right. by exists x.
    + intros [? | (y & [= -> ->] & H)]; done.
Qed.

Lemma parseSuffix_iff (mj mn pt r : string) :
  is_Some (semver.parseSuffix mj mn pt r) ↔
  ∃ pre bld : string, r = pre +:+ bld ∧
    SemVer2.optionalPart "-" SemVer2.prereleaseIdentifier pre = true ∧
    SemVer2.optionalPart "+" SemVer2.buildIdentifier bld = true.
Proof.
  assert (Hbuild : ∀ pre v,
    is_Some (match (if semver.startsWith "+" v then semver.parseBuild v
                    else Some ("", v)) with
             | None => None
             | Some (bld, v) =>
                 match v with
                 | EmptyString => Some (semver.mkParsed mj mn pt "" pre bld)
                 | String _ _ => None
                 end
             end)
    ↔ SemVer2.optionalPart "+" SemVer2.buildIdentifier v = true).
  { intros pre v. destruct v as [| c y]; simpl; [by split; eauto |].
    destruct (Ascii.eqb_spec c "+") as [-> | Hc]; simpl.
    - destruct (semver.parseBuild (String "+" y)) as [[bld v'] |] eqn:E.
      + apply parseBuild_iff in E as (y' & [= <-] & -> & -> & Hds).
        split; [done | by eauto].
      + split; [by intros [? ?] |]. intros Hds.
        rewrite (proj2 (parseBuild_iff (String "+" y) (String "+" y) "")) in E;
          [done | by exists y].
    - split; [by intros [? ?] | done]. }
  unfold semver.parseSuffix. split.
  - destruct (semver.startsWith "-" r) eqn:Hstart.
    + destruct (semver.parsePrerelease r) as [[pre v] |] eqn:E; [| by intros [? ?]].
      apply parsePrerelease_iff in E as (x & -> & -> & Hds & Hv).
      rewrite Hbuild. intros Hb. exists (String "-" x), v.
      repeat split; [| done]. simpl. by rewrite Hds.
    + rewrite Hbuild. intros Hb. by exists "", r.
  - intros (pre & bld & -> & Hpre & Hbld).
    apply optionalPart_cases in Hpre as [-> | (x & -> & Hds)].
    + simpl (_ +:+ _).
      replace (semver.startsWith "-" bld) with false; [by apply Hbuild |].
      apply optionalPart_cases in Hbld as [-> | (y & -> & _)]; done.
    + simpl (_ +:+ _). simpl semver.startsWith.
      rewrite (proj2 (parsePrerelease_iff (String "-" (x +:+ bld)) (String "-" x) bld)).
      * by apply Hbuild.
      * exists x. repeat split; [done |].
        apply optionalPart_cases in Hbld as [-> | (y & -> & _)]; [by left | by right].
Qed.

Lemma optional_parts_start (pre bld : string) :
  SemVer2.optionalPart "-" SemVer2.prereleaseIdentifier pre = true →
  SemVer2.optionalPart "+" SemVer2.buildIdentifier bld = true →
  startsWithDigit (pre +:+ bld) = false ∧ semver.startsWith "." (pre +:+ bld) = false.
Proof.
  intros [-> | (x & -> & _)]%optionalPart_cases [-> | (y & -> & _)]%optionalPart_cases;
    done.
Qed.

(** [semver.IsValid] accepts exactly the letter v followed by valid
    semantic version text or by one of the two short forms. *)
Lemma IsValid_iff (v : string) :
  semver.IsValid v = true ↔
  acceptedVersion v.
Proof.
  unfold acceptedVersion, semver.IsValid, semver.parse. split.
  - destruct v as [| c0 t]; [done |].
    destruct (Ascii.eqb_spec c0 "v") as [-> | Hc0]; simpl; [| done].
    intros H. exists t. split; [done |].
    destruct (semver.parseInt t) as [[mj r1] |] eqn:E1; [| done].
    apply parseInt_iff in E1 as (-> & Hmj & Hr1).
    destruct r1 as [| d1 t2].
    { right. exists mj. split; [done |]. left. by rewrite append_nil_r. }
    destruct (Ascii.eqb_spec d1 ".") as [-> | Hd1]; simpl in H; [| done].
    destruct (semver.parseInt t2) as [[mn r2] |] eqn:E2; [| done].
    apply parseInt_iff in E2 as (-> & Hmn & Hr2).
    destruct r2 as [| d2 t3].
    { right. exists mj. split; [done |]. right. exists mn.
      by rewrite append_nil_r. }
    destruct (Ascii.eqb_spec d2 ".") as [-> | Hd2]; simpl in H; [| done].
    destruct (semver.parseInt t3) as [[pt r3] |] eqn:E3; [| done].
    apply parseInt_iff in E3 as (-> & Hpt & Hr3).
    destruct (semver.parseSuffix mj mn pt r3) as [p |] eqn:E4; [| done].
    assert (Hs : is_Some (semver.parseSuffix mj mn pt r3)) by by rewrite E4.
    apply parseSuffix_iff in Hs as (pre & bld & -> & Hpre & Hbld).
    left. by exists mj, mn, pt, pre, bld.
  - intros (t & -> & [(mj & mn & pt & pre & bld & -> & Hmj & Hmn & Hpt & Hpre & Hbld)
                      | (mj & Hmj & [-> | (mn & Hmn & ->)])]); simpl.
    + destruct (optional_parts_start pre bld Hpre Hbld) as [Hd _].
      rewrite (proj2 (parseInt_iff _ mj ("." +:+ mn +:+ "." +:+ pt +:+ pre +:+ bld)))
        by done.
      simpl.
      rewrite (proj2 (parseInt_iff _ mn ("." +:+ pt +:+ pre +:+ bld))) by done.
      simpl.
      rewrite (proj2 (parseInt_iff _ pt (pre +:+ bld))) by done.
      destruct (semver.parseSuffix mj mn pt (pre +:+ bld)) eqn:E; [done |].
      assert (Hs : is_Some (semver.parseSuffix mj mn pt (pre +:+ bld))).
      { apply parseSuffix_iff. by exists pre, bld. }
      rewrite E in Hs. by destruct Hs.
    + rewrite (proj2 (parseInt_iff mj mj "")); [done |].
      by rewrite append_nil_r.
    + rewrite (proj2 (parseInt_iff _ mj ("." +:+ mn))) by done.
      simpl.
      rewrite (proj2 (parseInt_iff mn mn "")); [done |].
      by rewrite append_nil_r.
Qed.

(** *** The version check *)

Example IsValid_samples :
  map semver.IsValid
    ["v1.0.0"; "1.0.0"; "v1"; "v1.2"; "v1.2.3-rc.1+build.5"; "v01.0.0";
     "v1.0.0-01"; "v1.0.0-0a"; "v1.0.0-"; "v1.0.0+"; "v1.0.0+a..b"; "";
     "v"; "v1."; "v1.0.0 "; "v1.0-rc"; "V1.0.0"; "v0.0.0-a-b.0+-"]
  = [true; false; true; true; true; false;
     false; true; false; false; false; false;
     false; false; false; false; false; true].
Proof. reflexivity. Qed.

Lemma validate_InvalidLavaVersion (c : Config) :
  validate c = Some ErrInvalidLavaVersion ↔ semver.IsValid (LavaVersion c) = false.
Proof.
  unfold validate. destruct (semver.IsValid (LavaVersion c)); simpl; [| done].
  split; [| done].
  destruct (length (Targets c) =? 0)%nat; [done |].
  by destruct (validateTargets_result (Targets c)) as [-> | ->].
Qed.

Lemma validSemver_first_digit (t : string) :
  SemVer2.validSemver t → startsWithDigit t = true.
Proof.
  intros (mj & mn & pt & pre & bld & -> & Hmj & _).
  destruct mj as [| c mj]; simpl in *; [done |].
  apply andb_true_iff in Hmj as [Hmj _]. by apply andb_true_iff in Hmj as [-> _].
Qed.

Lemma validSemver_1_0_0 : SemVer2.validSemver "1.0.0".
Proof. by exists "1", "0", "0", "", "". Qed.

Lemma not_validSemver_1 : ¬ SemVer2.validSemver "1".
Proof.
  intros (mj & mn & pt & pre & bld & E & Hmj & _).
  destruct mj as [| c [| c' mj]]; simpl in *; done.
Qed.

(** C4, as amended. The version check fails with [ErrInvalidLavaVersion]
    exactly on the strings that are not the letter v followed by valid
    semantic version text or by one of the short forms MAJOR and
    MAJOR.MINOR. The leading v is required: valid semantic version text
    is accepted with the v before it and rejected without it. *)
Theorem validate_version_syntax (c : Config) :
  (validate c = Some ErrInvalidLavaVersion ↔ ¬ acceptedVersion (LavaVersion c)) ∧
  (∀ t : string, SemVer2.validSemver t →
     validate (withVersion (String "v" t) c) ≠ Some ErrInvalidLavaVersion ∧
     validate (withVersion t c) = Some ErrInvalidLavaVersion).
Proof.
  assert (Hiff : ∀ c', validate c' = Some ErrInvalidLavaVersion
                       ↔ ¬ acceptedVersion (LavaVersion c')).
  { intros c'. rewrite validate_InvalidLavaVersion, <- IsValid_iff.
    by destruct (semver.IsValid (LavaVersion c')). }
  split; [apply Hiff |].
  intros t Ht. rewrite !Hiff. simpl. split.
  - intros H. apply H. exists t. by split; [| left].
  - intros (t' & -> & _).
    by apply validSemver_first_digit in Ht.
Qed.

Lemma validate_version_syntax_witness :
  validate (mkConfig "v1.0.0" zero zero [] [target_of "example.com" ""] 0)
    ≠ Some ErrInvalidLavaVersion ∧
  validate (mkConfig "1.0.0" zero zero [] [target_of "example.com" ""] 0)
    = Some ErrInvalidLavaVersion.
Proof.
  apply (proj2 (validate_version_syntax
                  (mkConfig "" zero zero [] [target_of "example.com" ""] 0))
           "1.0.0" validSemver_1_0_0).
Defined.

(** C4, as stated, fails: "1.0.0" is valid semantic version text, so it
    is in the claimed syntax, and the check rejects it; "v1" is not in
    the claimed syntax, and the check accepts it. *)
Lemma version_check_optional_v_counterexample :
  (semverOptionalV "1.0.0" ∧
   validate (mkConfig "1.0.0" zero zero [] [target_of "example.com" ""] 0)
   = Some ErrInvalidLavaVersion) ∧
  (¬ semverOptionalV "v1" ∧
   validate (mkConfig "v1" zero zero [] [target_of "example.com" ""] 0) = None).
Proof.
  split; split; try reflexivity.
  - left. exact validSemver_1_0_0.
  - intros [H | (t & [= <-] & H)].
    + by apply validSemver_first_digit in H.
    + by apply not_validSemver_1 in H.
Qed.

(** *** The validity of what [Parse] returns, and the order of the checks *)

Lemma validateTargetsTrace_result (targets : list Target) :
  (validateTargetsTrace targets).2 = validateTargets targets.
Proof.
  induction targets as [| t targets IH]; simpl; [done |].
  destruct (String.eqb (Identifier t) ""); [done |].
  by destruct (validateTargetsTrace targets).
Qed.

(** The loop reads the targets up to the first one without identifier,
    that one included, and none after it. *)
Lemma validateTargetsTrace_first (before after : list Target) (target : Target) :
  Forall (λ t, Identifier t ≠ "") before →
  Identifier target = "" →
  validateTargetsTrace (before ++ target :: after)
  = (before ++ [target], Some ErrNoTargetIdentifier).
Proof.
  intros Hb Ht. induction Hb as [| t before Hne _ IH]; simpl.
  - by rewrite Ht.
  - apply String.eqb_neq in Hne as ->. by rewrite IH.
Qed.

Lemma list_find_first_split {A : Type} (P : A → Prop) `{∀ x, Decision (P x)}
    (before after : list A) (x : A) :
  Forall (λ y, ¬ P y) before → P x →
  list_find P (before ++ x :: after) = Some (length before, x).
Proof.
  intros Hb Hx. apply list_find_Some. split; [| split].
  - by rewrite lookup_app_r, Nat.sub_diag.
  - done.
  - intros j y Hj Hlt. rewrite lookup_app_l in Hj by done.
    rewrite Forall_forall in Hb. apply Hb.
    by eapply list_elem_of_lookup_2.
Qed.

Lemma not_semverOptionalV_v1 : ¬ semverOptionalV "v1".
Proof.
  intros [H | (t & [= <-] & H)].
  - by apply validSemver_first_digit in H.
  - by apply not_validSemver_1 in H.
Qed.

Lemma acceptedVersion_v1_0_0 : acceptedVersion "v1.0.0".
Proof. by apply IsValid_iff. Qed.

Lemma not_acceptedVersion_1_0 : ¬ acceptedVersion "1.0".
Proof. by intros H%IsValid_iff. Qed.

(** C2, as amended. A configuration that [Parse] returns without error
    has a [LavaVersion] that the version check accepts, the letter v
    followed by valid semantic version text or by one of the short forms
    MAJOR and MAJOR.MINOR, a non-empty list of targets, and no target
    with an empty identifier, whatever the decoder does. *)
Theorem Parse_ok_accepted (Decode : Decoder) (r : string) (cfg : Config) :
  Parse Decode r = (cfg, None) →
  acceptedVersion (LavaVersion cfg) ∧ Targets cfg ≠ [] ∧
  Forall (λ t, Identifier t ≠ "") (Targets cfg).
Proof.
  unfold Parse. intros H.
  destruct (Decode r zero) as [cfg' [err |]]; [discriminate |].
  destruct (validate cfg') as [err |] eqn:Hv; [discriminate |].
  injection H as <-.
  apply validate_None in Hv as (Hver & Hne & Hid).
  by apply IsValid_iff in Hver.
Qed.

Lemma Parse_ok_accepted_witness :
  Parse testdataDecode doc_target_identifier
    = (mkConfig "v1.0.0" zero zero [] [mkTarget "example.com" "" ∅] 0, None) ∧
  acceptedVersion "v1.0.0" ∧
  [mkTarget "example.com" "" ∅] ≠ [] ∧
  Forall (λ t, Identifier t ≠ "") [mkTarget "example.com" "" ∅].
Proof.
  split; [reflexivity |].
  apply (Parse_ok_accepted testdataDecode doc_target_identifier
           (mkConfig "v1.0.0" zero zero [] [mkTarget "example.com" "" ∅] 0)).
  reflexivity.
Defined.

(** C2, as stated, fails: [Parse] returns a configuration with version
    "v1" and no error, and "v1" is not valid semantic version text,
    with the letter v before it or without. *)
Lemma Parse_ok_not_semver_counterexample :
  Parse shortVersionDecode doc_short_version
    = (mkConfig "v1" zero zero [] [mkTarget "example.com" "" ∅] 0, None) ∧
  ¬ SemVer2.validSemver "v1" ∧ ¬ semverOptionalV "v1".
Proof.
  split; [reflexivity |]. split.
  - intros H. by apply validSemver_first_digit in H.
  - exact not_semverOptionalV_v1.
Qed.

(** C3, as amended. The version check comes first and its failure is the
    result: a configuration whose [LavaVersion] the check does not
    accept, any string but the letter v followed by valid semantic
    version text or by a short form, fails validation with
    [ErrInvalidLavaVersion] whatever its targets are, so with an empty
    list of targets the error is not [ErrNoTargets], and with a target
    without identifier it is not [ErrNoTargetIdentifier]. *)
Theorem validate_rejected_version_first (c : Config) :
  ¬ acceptedVersion (LavaVersion c) →
  validate c = Some ErrInvalidLavaVersion ∧
  validate c ≠ Some ErrNoTargets ∧
  validate c ≠ Some ErrNoTargetIdentifier ∧
  ∀ targets, validate (withTargets targets c) = Some ErrInvalidLavaVersion.
Proof.
  intros H.
  assert (Hv : semver.IsValid (LavaVersion c) = false).
  { destruct (semver.IsValid (LavaVersion c)) eqn:E; [| done].
    by apply IsValid_iff in E. }
  unfold validate. simpl. by rewrite Hv.
Qed.

Lemma validate_rejected_version_first_witness :
  validate (mkConfig "1.0" zero zero [] [] 0) = Some ErrInvalidLavaVersion ∧
  validate (mkConfig "1.0" zero zero [] [] 0) ≠ Some ErrNoTargets.
Proof.
  split.
  - apply (validate_rejected_version_first (mkConfig "1.0" zero zero [] [] 0)).
    exact not_acceptedVersion_1_0.
  - apply (validate_rejected_version_first (mkConfig "1.0" zero zero [] [] 0)).
    exact not_acceptedVersion_1_0.
Defined.

(** C3, as stated, fails: "v1" is not valid semantic version text, with
    the letter v before it or without, and a configuration with that
    version and no target fails with [ErrNoTargets], not with
    [ErrInvalidLavaVersion]. *)
Lemma validate_short_version_counterexample :
  ¬ SemVer2.validSemver "v1" ∧ ¬ semverOptionalV "v1" ∧
  validate (mkConfig "v1" zero zero [] [] 0) = Some ErrNoTargets.
Proof.
  split; [| split; [exact not_semverOptionalV_v1 | reflexivity]].
  intros H. by apply validSemver_first_digit in H.
Qed.

(** C9, as amended. A configuration whose version the check accepts and
    in which some target has an empty identifier fails validation with
    [ErrNoTargetIdentifier], a sentinel with a fixed text that names no
    target. The loop stops at the first such target in list order: it
    reads the targets up to that one and none after it. *)
Theorem validate_NoTargetIdentifier_first (c : Config) :
  acceptedVersion (LavaVersion c) →
  Exists (λ t, Identifier t = "") (Targets c) →
  validate c = Some ErrNoTargetIdentifier ∧
  errors.Error ErrNoTargetIdentifier = "no target identifier" ∧
  ∃ (i : nat) (target : Target),
    list_find (λ t, Identifier t = "") (Targets c) = Some (i, target) ∧
    validateTargetsTrace (Targets c)
    = (take (S i) (Targets c), Some ErrNoTargetIdentifier).
Proof.
  intros Hv Hex. apply IsValid_iff in Hv.
  apply Exists_first_split in Hex as (before & target & after & E & Hb & Ht);
    [| intros t; apply _].
  split; [| split; [done |]].
  - unfold validate. rewrite Hv, E. simpl.
    rewrite length_app. simpl.
    replace (length before + S (length after))%nat
      with (S (length before + length after)) by lia.
    simpl. by apply validateTargets_first.
  - exists (length before), target. rewrite E. split.
    + by apply list_find_first_split.
    + rewrite validateTargetsTrace_first by done. f_equal.
      clear. induction before as [| t before IH]; simpl; [done | by f_equal].
Qed.

Lemma validate_NoTargetIdentifier_first_witness :
  validate (mkConfig "v1.0.0" zero zero []
              [target_of "example.com" ""; target_of "" "DomainName";
               target_of "" "IP"; target_of "example.org" ""] 0)
  = Some ErrNoTargetIdentifier ∧
  validateTargetsTrace
    [target_of "example.com" ""; target_of "" "DomainName";
     target_of "" "IP"; target_of "example.org" ""]
  = ([target_of "example.com" ""; target_of "" "DomainName"],
     Some ErrNoTargetIdentifier).
Proof.
  split; [| reflexivity].
  apply (validate_NoTargetIdentifier_first
           (mkConfig "v1.0.0" zero zero []
              [target_of "example.com" ""; target_of "" "DomainName";
               target_of "" "IP"; target_of "example.org" ""] 0)).
  - exact acceptedVersion_v1_0_0.
  - simpl. apply Exists_cons_tl, Exists_cons_hd. reflexivity.
Defined.

(** C9, as stated, fails twice. "1.0.0" is valid semantic version text,
    and a configuration with that version and a target without
    identifier fails with [ErrInvalidLavaVersion], not with
    [ErrNoTargetIdentifier]. And the error reports no target: two
    configurations whose first target without identifier differs, in
    place and in content, get the same result. *)
Lemma validate_NoTargetIdentifier_counterexample :
  (SemVer2.validSemver "1.0.0" ∧
   Exists (λ t, Identifier t = "") [target_of "" "DomainName"] ∧
   validate (mkConfig "1.0.0" zero zero [] [target_of "" "DomainName"] 0)
   = Some ErrInvalidLavaVersion) ∧
  (list_find (λ t, Identifier t = "")
     [target_of "" "DomainName"; target_of "example.com" ""]
   = Some (0%nat, target_of "" "DomainName") ∧
   list_find (λ t, Identifier t = "")
     [target_of "example.com" ""; target_of "" "IP"]
   = Some (1%nat, target_of "" "IP") ∧
   validate (mkConfig "v1.0.0" zero zero []
               [target_of "" "DomainName"; target_of "example.com" ""] 0)
   = validate (mkConfig "v1.0.0" zero zero []
                 [target_of "example.com" ""; target_of "" "IP"] 0)).
Proof.
  split.
  - split; [exact validSemver_1_0_0 |]. split; [by left | reflexivity].
  - repeat split.
Qed.

(** ** Further properties of package [config] *)

(** *** Error values *)

Lemma error_eqb_eq (a b : error) : errors.eqb a b = true ↔ a = b.
Proof.
  revert b. induction a as [s | b1 w1 IH a1]; intros [t | b2 w2 a2]; simpl;
    try (split; discriminate).
  - rewrite String.eqb_eq. split; congruence.
  - rewrite !andb_true_iff, !String.eqb_eq, IH. split.
    + by intros [[-> ->] ->].
    + by intros [= -> -> ->].
Qed.

Lemma error_Is_refl (e : error) : errors.Is e e = true.
Proof.
  destruct e; cbn [errors.Is]; by rewrite (proj2 (error_eqb_eq _ _) eq_refl).
Qed.

Lemma error_Is_Errorf (before after : string) (w target : error) :
  errors.Is w target = true → errors.Is (errors.Errorf before w after) target = true.
Proof. intros H. cbn [errors.Is]. rewrite H. apply orb_true_r. Qed.

(** What [errors.Is] finds in an error that wraps a value of
    [errors.New]: the error itself and the wrapped value, nothing
    else. *)
Lemma error_Is_wrapped_New (before after text : string) (target : error) :
  errors.Is (errors.Errorf before (errors.New text) after) target = true ↔
  target = errors.Errorf before (errors.New text) after ∨ target = errors.New text.
Proof.
  cbn [errors.Is]. rewrite orb_false_r, orb_true_iff, !error_eqb_eq.
  split; intros [H | H]; auto.
Qed.

(** *** Validation, case by case *)

Lemma validateTargets_Some (targets : list Target) (e : error) :
  validateTargets targets = Some e ↔
  e = ErrNoTargetIdentifier ∧ Exists (λ t, Identifier t = "") targets.
Proof.
  induction targets as [| t targets IH]; simpl.
  - split; [done |]. intros [_ H]. inversion H.
  - destruct (String.eqb_spec (Identifier t) "") as [E | E].
    + split; [intros [= <-]; split; [done | by left] | by intros [-> _]].
    + rewrite IH. split; intros [-> H]; split; try done.
      * by right.
      * by inversion H.
Qed.

Lemma validate_Some_sentinel (c : Config) (e : error) :
  validate c = Some e →
  e = ErrInvalidLavaVersion ∨ e = ErrNoTargets ∨ e = ErrNoTargetIdentifier.
Proof.
  unfold validate.
  destruct (semver.IsValid (LavaVersion c)); simpl; [| intros [= <-]; tauto].
  destruct (length (Targets c) =? 0)%nat; [intros [= <-]; tauto |].
  intros [-> _]%validateTargets_Some. tauto.
Qed.

(** X1. [validate] returns nil or one of its three sentinels, and each
    of the two target errors exactly in its case: [ErrNoTargets] when the
    version is accepted and the list of targets is empty,
    [ErrNoTargetIdentifier] when the version is accepted and some target
    has an empty identifier. *)
Theorem validate_outcomes (c : Config) :
  (validate c = None ∨ validate c = Some ErrInvalidLavaVersion
   ∨ validate c = Some ErrNoTargets ∨ validate c = Some ErrNoTargetIdentifier) ∧
  (validate c = Some ErrNoTargets ↔
   semver.IsValid (LavaVersion c) = true ∧ Targets c = []) ∧
  (validate c = Some ErrNoTargetIdentifier ↔
   semver.IsValid (LavaVersion c) = true ∧
   Exists (λ t, Identifier t = "") (Targets c)).
Proof.
  unfold validate.
  destruct (semver.IsValid (LavaVersion c)); simpl.
  2: { repeat split; try tauto; try done; by intros [? _]. }
  destruct (Targets c) as [| t targets] eqn:E.
  { repeat split; try tauto; try done. intros [_ H]. inversion H. }
  change (length (t :: targets) =? 0)%nat with false. cbv iota.
  split; [| split].
  - destruct (validateTargets_result (t :: targets)) as [-> | ->]; tauto.
  - split; [| by intros [_ ?]].
    by destruct (validateTargets_result (t :: targets)) as [-> | ->].
  - rewrite validateTargets_Some. tauto.
Qed.

(** X2. [validate] reads the version and the identifiers of the targets
    and nothing else: two configurations that agree on them get the same
    result, whatever their other fields hold. *)
Theorem validate_reads_only (c1 c2 : Config) :
  LavaVersion c1 = LavaVersion c2 →
  map Identifier (Targets c1) = map Identifier (Targets c2) →
  validate c1 = validate c2.
Proof.
  intros Hv Ht. unfold validate. rewrite Hv.
  rewrite <- (length_map Identifier (Targets c1)),
          <- (length_map Identifier (Targets c2)), Ht.
  assert (H : ∀ l1 l2, map Identifier l1 = map Identifier l2 →
                       validateTargets l1 = validateTargets l2).
  { clear. induction l1 as [| t1 l1 IH]; intros [| t2 l2]; simpl; try done.
    intros [= -> H]. by rewrite (IH l2). }
  by rewrite (H _ _ Ht).
Qed.

Lemma validate_reads_only_witness :
  validate (mkConfig "v1.2.3" zero zero [] [target_of "example.com" ""] 0)
  = validate (mkConfig "v1.2.3" (mkAgentConfig 1 4 ∅ [])
                (mkReportConfig SeverityInfo OutputFormatJSON "out.json"
                   [mkExclusion "" "" "" "everything" ""])
                ["https://example.com/checktypes.json"]
                [mkTarget "example.com" "DomainName"
                   (<["depth" := any_int 3]> ∅)] (-4)).
Proof. apply validate_reads_only; reflexivity. Defined.

(** X3. The result of [validate] does not depend on the order of the
    targets: the error for a target without identifier is the same
    sentinel wherever that target stands. *)
Theorem validate_Permutation (c : Config) (targets : list Target) :
  Permutation (Targets c) targets →
  validate (withTargets targets c) = validate c.
Proof.
  intros Hp. unfold validate. simpl.
  rewrite <- (Permutation_length Hp).
  destruct (semver.IsValid (LavaVersion c)); simpl; [| done].
  destruct (length (Targets c) =? 0)%nat; [done |].
  destruct (validateTargets_result (Targets c)) as [H | H]; rewrite H.
  - apply validateTargets_None. apply validateTargets_None in H.
    by rewrite <- Hp.
  - apply validateTargets_Some. apply validateTargets_Some in H as [_ H].
    split; [done |]. by rewrite <- Hp.
Qed.

Lemma validate_Permutation_witness :
  validate (mkConfig "v1.0.0" zero zero []
              [target_of "" "IP"; target_of "example.com" ""] 0)
  = validate (mkConfig "v1.0.0" zero zero []
                [target_of "example.com" ""; target_of "" "IP"] 0).
Proof.
  apply (validate_Permutation
           (mkConfig "v1.0.0" zero zero []
              [target_of "example.com" ""; target_of "" "IP"] 0)
           [target_of "" "IP"; target_of "example.com" ""]).
  apply perm_swap.
Defined.

(** *** [Parse] and [ParseFile] *)

Lemma zero_Config_invalid : validate zero = Some ErrInvalidLavaVersion.
Proof. reflexivity. Qed.

Lemma Parse_cases (Decode : Decoder) (r : string) :
  (∃ e, (Decode r zero).2 = Some e ∧
        Parse Decode r = (zero, Some (errors.Errorf "decode config: " e "")))
  ∨ (∃ e, (Decode r zero).2 = None ∧ validate (Decode r zero).1 = Some e ∧
          Parse Decode r = (zero, Some (errors.Errorf "validate config: " e "")))
  ∨ ((Decode r zero).2 = None ∧ validate (Decode r zero).1 = None ∧
     Parse Decode r = ((Decode r zero).1, None)).
Proof.
  unfold Parse. destruct (Decode r zero) as [cfg [e |]]; simpl.
  - left. by exists e.
  - destruct (validate cfg) as [e |] eqn:Hv.
    + right; left. by exists e.
    + right; right. done.
Qed.

(** X4. [Parse] returns the zero configuration exactly when it returns an
    error; without error it returns the configuration as the decoder
    left it. *)
Theorem Parse_zero_iff_error (Decode : Decoder) (r : string) :
  ((Parse Decode r).1 = zero ↔ (Parse Decode r).2 ≠ None) ∧
  ((Parse Decode r).2 = None → (Parse Decode r).1 = (Decode r zero).1).
Proof.
  destruct (Parse_cases Decode r)
    as [(e & _ & ->) | [(e & _ & _ & ->) | (_ & Hv & ->)]]; simpl;
    try (split; [split |]; done).
  split; [| done]. split; [| done].
  intros Hz. rewrite Hz, zero_Config_invalid in Hv. done.
Qed.

(** X5. The error of [Parse] wraps its cause, so that [errors.Is] finds
    it, as config_test.go checks: the decoder's error behind the text
    "decode config: ", the sentinel of [validate] behind
    "validate config: "; of the three validation sentinels [errors.Is]
    then finds the one [validate] returned and no other. *)
Theorem Parse_error_Is (Decode : Decoder) (r : string) (e : error) :
  ((Decode r zero).2 = Some e →
   ∃ err, (Parse Decode r).2 = Some err ∧ errors.Is err e = true ∧
          errors.Error err = "decode config: " +:+ errors.Error e) ∧
  ((Decode r zero).2 = None → validate (Decode r zero).1 = Some e →
   ∃ err, (Parse Decode r).2 = Some err ∧ errors.Is err e = true ∧
          errors.Error err = "validate config: " +:+ errors.Error e ∧
          ∀ sentinel,
            sentinel ∈ [ErrInvalidLavaVersion; ErrNoTargets; ErrNoTargetIdentifier] →
            (errors.Is err sentinel = true ↔ sentinel = e)).
Proof.
  split.
  - intros Hd. unfold Parse. destruct (Decode r zero) as [cfg o]. simpl in Hd.
    subst o. eexists. split; [done |]. split.
    + apply error_Is_Errorf, error_Is_refl.
    + simpl. by rewrite append_nil_r.
  - intros Hd Hv. unfold Parse. destruct (Decode r zero) as [cfg o]. simpl in *.
    subst o. rewrite Hv. eexists. split; [done |]. split; [| split].
    + apply error_Is_Errorf, error_Is_refl.
    + simpl. by rewrite append_nil_r.
    + intros sentinel Hs.
      assert (He : ∃ text, e = errors.New text).
      { apply validate_Some_sentinel in Hv as [-> | [-> | ->]]; by eexists. }
      destruct He as [text ->]. rewrite error_Is_wrapped_New.
      split; [| by right].
      intros [-> | ->]; [| done].
      repeat (apply elem_of_cons in Hs as [Hs | Hs]; [discriminate |]).
      by apply elem_of_nil in Hs.
Qed.

Lemma Parse_error_Is_witness :
  ∃ err, (Parse testdataDecode "").2 = Some err ∧ errors.Is err io_EOF = true ∧
         errors.Error err = "decode config: EOF".
Proof.
  apply (proj1 (Parse_error_Is testdataDecode "" io_EOF)). reflexivity.
Defined.

(** X6. When the file cannot be opened, [ParseFile] returns the zero
    configuration and an error that wraps the one of [os.Open] behind the
    text "open config file: "; nothing is decoded: the result is the
    same with every decoder. *)
Theorem ParseFile_open_error (Open : Opener) (Decode : Decoder)
    (path : string) (e : error) :
  (Open path).2 = Some e →
  ∃ err, ParseFile Open Decode path = (zero, Some err) ∧
         errors.Is err e = true ∧
         errors.Error err = "open config file: " +:+ errors.Error e ∧
         ∀ Decode' : Decoder, ParseFile Open Decode' path = (zero, Some err).
Proof.
  intros Ho. unfold ParseFile. destruct (Open path) as [f o]. simpl in Ho.
  subst o. eexists. split; [done |]. split; [| split; [| done]].
  - apply error_Is_Errorf, error_Is_refl.
  - simpl. by rewrite append_nil_r.
Qed.

Lemma ParseFile_open_error_witness :
  ∃ err, ParseFile testdataOpen testdataDecode "lava.yaml" = (zero, Some err) ∧
         errors.Is err (errors.New "open lava.yaml: no such file or directory") = true ∧
         errors.Error err
         = "open config file: open lava.yaml: no such file or directory" ∧
         ∀ Decode' : Decoder, ParseFile testdataOpen Decode' "lava.yaml" = (zero, Some err).
Proof.
  apply (ParseFile_open_error testdataOpen testdataDecode "lava.yaml"
           (errors.New "open lava.yaml: no such file or directory")).
  reflexivity.
Defined.

(** X7. [ParseFile] fails in one of three stages, told apart by the text
    its error starts with, and returns the zero configuration then; when
    it returns no error the file was opened and the configuration it
    returns has an accepted version, a target, and no target without
    identifier. *)
Theorem ParseFile_stages (Open : Opener) (Decode : Decoder) (path : string) :
  match (ParseFile Open Decode path).2 with
  | Some err =>
      (ParseFile Open Decode path).1 = zero ∧
      ∃ cause : error,
        (err = errors.Errorf "open config file: " cause "" ∧
         (Open path).2 = Some cause)
        ∨ (err = errors.Errorf "decode config: " cause "" ∧
           (Open path).2 = None ∧ (Decode (Open path).1 zero).2 = Some cause)
        ∨ (err = errors.Errorf "validate config: " cause "" ∧
           (Open path).2 = None ∧ (Decode (Open path).1 zero).2 = None ∧
           validate (Decode (Open path).1 zero).1 = Some cause)
  | None =>
      (Open path).2 = None ∧
      (ParseFile Open Decode path).1 = (Decode (Open path).1 zero).1 ∧
      semver.IsValid (LavaVersion (ParseFile Open Decode path).1) = true ∧
      Targets (ParseFile Open Decode path).1 ≠ [] ∧
      Forall (λ t, Identifier t ≠ "") (Targets (ParseFile Open Decode path).1)
  end.
Proof.
  unfold ParseFile. destruct (Open path) as [f [e |]]; simpl.
  { split; [done |]. exists e. by left. }
  destruct (Parse_cases Decode f)
    as [(e & Hd & ->) | [(e & Hd & Hv & ->) | (Hd & Hv & ->)]]; simpl.
  - split; [done |]. exists e. right; left. done.
  - split; [done |]. exists e. right; right. done.
  - repeat split; try done; by apply validate_None in Hv as (? & ? & ?).
Qed.

Example ParseFile_testdata :
  ParseFile testdataOpen testdataDecode "testdata/target_identifier.yaml"
  = (mkConfig "v1.0.0" zero zero [] [mkTarget "example.com" "" ∅] 0, None) ∧
  ParseFile testdataOpen testdataDecode "testdata/empty.yaml"
  = (zero, Some (errors.Errorf "decode config: " io_EOF "")) ∧
  ParseFile testdataOpen testdataDecode "testdata/no_target_identifier.yaml"
  = (zero, Some (errors.Errorf "validate config: " ErrNoTargetIdentifier "")).
Proof. repeat split. Qed.

(** *** The enumerations *)

(** X8. A successful [parseSeverity] yields one of the five levels, all
    within -3..1; each level has a name and no two names share a level;
    a failed one yields the zero value, which is [SeverityHigh], so the
    value alone does not tell a failure from "high". *)
Theorem parseSeverity_levels :
  (∀ (s : string) (v : Z), parseSeverity s = (v, None) →
     v ∈ [SeverityCritical; SeverityHigh; SeverityMedium; SeverityLow; SeverityInfo]
     ∧ (-3 ≤ v ≤ 1)%Z) ∧
  (∀ v : Z,
     v ∈ [SeverityCritical; SeverityHigh; SeverityMedium; SeverityLow; SeverityInfo] →
     ∃ s : string, parseSeverity s = (v, None)) ∧
  (∀ (s1 s2 : string) (v : Z),
     parseSeverity s1 = (v, None) → parseSeverity s2 = (v, None) → s1 = s2) ∧
  (∀ s : string, (parseSeverity s).2 ≠ None → (parseSeverity s).1 = SeverityHigh).
Proof.
  split; [| split; [| split]].
  - intros s v H. apply parseSeverity_ok, severityNames_Some in H.
    destruct H as [[_ ->] | [[_ ->] | [[_ ->] | [[_ ->] | [_ ->]]]]];
      (split; [| done]);
      repeat first [apply list_elem_of_here | apply list_elem_of_further].
  - intros v H.
    apply elem_of_cons in H as [-> | H]; [by exists "critical" |].
    apply elem_of_cons in H as [-> | H]; [by exists "high" |].
    apply elem_of_cons in H as [-> | H]; [by exists "medium" |].
    apply elem_of_cons in H as [-> | H]; [by exists "low" |].
    apply elem_of_cons in H as [-> | H]; [by exists "info" |].
    by apply elem_of_nil in H.
  - intros s1 s2 v H1 H2.
    apply parseSeverity_ok, severityNames_Some in H1, H2.
    destruct H1 as [[-> ->] | [[-> ->] | [[-> ->] | [[-> ->] | [-> ->]]]]];
      destruct H2 as [[-> E] | [[-> E] | [[-> E] | [[-> E] | [-> E]]]]];
      done.
  - intros s. unfold parseSeverity. by destruct (severityNames !! s).
Qed.

Lemma parseSeverity_levels_witness :
  (parseSeverity "HIGH").1 = SeverityHigh ∧ (parseSeverity "HIGH").2 ≠ None.
Proof.
  split; [| discriminate].
  apply (proj2 (proj2 (proj2 parseSeverity_levels)) "HIGH"). discriminate.
Defined.

(** X9. [parseOutputFormat] accepts a string exactly when its lowering
    by [strings.ToLower] is "json", so strings with the same lowering
    fare alike; the error wraps [ErrInvalidOutputFormat] and names the
    string as it was given, not its lowering. The value returned is
    [OutputFormatJSON] in every case, the zero value being that format:
    only the error tells a failure. *)
Theorem parseOutputFormat_spec (ToLower : string → string) (format : string) :
  (ToLower format = "json" →
   parseOutputFormat ToLower format = (OutputFormatJSON, None)) ∧
  (ToLower format ≠ "json" →
   ∃ err : error,
     parseOutputFormat ToLower format = (zero, Some err) ∧
     errors.Is err ErrInvalidOutputFormat = true ∧
     errors.Error err = "invalid output format: " +:+ format) ∧
  (∀ format' : string, ToLower format' = ToLower format →
     (parseOutputFormat ToLower format').2 = None
     ↔ (parseOutputFormat ToLower format).2 = None) ∧
  (parseOutputFormat ToLower format).1 = OutputFormatJSON.
Proof.
  unfold parseOutputFormat, outputFormatNames.
  split; [| split; [| split]].
  - intros ->. by rewrite lookup_insert_eq.
  - intros Hne. rewrite lookup_insert_ne, lookup_empty by done.
    eexists. split; [done |]. split; [by apply invalidToken_Is | done].
  - intros format' ->. by destruct (_ !! _).
  - destruct (_ !! _) as [v |] eqn:E; [| done].
    apply lookup_insert_Some in E as [[_ <-] | [_ E]]; [done |].
    by rewrite lookup_empty in E.
Qed.

Lemma parseOutputFormat_spec_witness :
  parseOutputFormat ToLowerASCII "JSON" = (OutputFormatJSON, None) ∧
  ∃ err : error,
    parseOutputFormat ToLowerASCII "YAML" = (zero, Some err) ∧
    errors.Is err ErrInvalidOutputFormat = true ∧
    errors.Error err = "invalid output format: YAML".
Proof.
  split.
  - apply (proj1 (parseOutputFormat_spec ToLowerASCII "JSON")). reflexivity.
  - apply (proj1 (proj2 (parseOutputFormat_spec ToLowerASCII "YAML"))). discriminate.
Defined.

(** X10. [UnmarshalYAML] of an [AssetType] sets the receiver to the type
    [types.Parse] returns; when [types.Parse] fails it leaves the
    receiver as it was and returns an error that wraps
    [ErrInvalidAssetType] and names the token. The error of
    [types.Parse] is dropped: [errors.Is] finds the returned error and
    the sentinel in it, nothing else. *)
Theorem AssetType_UnmarshalYAML_spec
    (types_Parse : string → string * option error) (t : string) (value : Node) :
  match (types_Parse (Value value)).2 with
  | None =>
      AssetType_UnmarshalYAML types_Parse t value
      = ((types_Parse (Value value)).1, None)
  | Some _ =>
      ∃ err : error,
        AssetType_UnmarshalYAML types_Parse t value = (t, Some err) ∧
        errors.Error err = "invalid asset type: " +:+ Value value ∧
        ∀ target : error,
          errors.Is err target = true ↔ target = err ∨ target = ErrInvalidAssetType
  end.
Proof.
  unfold AssetType_UnmarshalYAML.
  destruct (types_Parse (Value value)) as [at_ [e |]]; simpl; [| done].
  eexists. split; [done |]. split; [done |].
  intros target. apply error_Is_wrapped_New.
Qed.

(** ** Properties of command [lava] *)

Example main_samples :
  let run := lava.mkCommand "run" (λ args, args)
               (λ args, if bool_decide (args = []) then Some ErrNoTargets else None) in
  lava.main lava.quotePlain (lava.init run) ["run"; "lava.yaml"]
  = ([lava.SetDefaultLogger; lava.SetFlagUsage; lava.FlagParse;
      lava.SetCommandUsage 0; lava.CommandFlagParse 0 ["lava.yaml"];
      lava.CommandRun 0 ["lava.yaml"]], inl tt) ∧
  lava.main lava.quotePlain (lava.init run) ["run"]
  = ([lava.SetDefaultLogger; lava.SetFlagUsage; lava.FlagParse;
      lava.SetCommandUsage 0; lava.CommandFlagParse 0 []; lava.CommandRun 0 [];
      lava.Stderr ("error: no targets" +:+ lava.newline)], inr 1) ∧
  lava.main lava.quotePlain (lava.init run) []
  = ([lava.SetDefaultLogger; lava.SetFlagUsage; lava.FlagParse; lava.PrintUsage],
     inr 2).
Proof. repeat split. Qed.

Lemma rangeCommands_nomatch (cmds : list lava.Command) (i : nat)
    (arg0 : string) (rest : list string) :
  Forall (λ c, lava.Name c ≠ arg0) cmds →
  lava.rangeCommands cmds i arg0 rest
  = (map lava.SetCommandUsage (seq i (length cmds)), inl false).
Proof.
  intros H. revert i. induction H as [| cmd cmds Hne _ IH]; intros i; simpl.
  - done.
  - apply String.eqb_neq in Hne as ->. by rewrite IH.
Qed.

Lemma rangeCommands_match (before after : list lava.Command) (cmd : lava.Command)
    (i : nat) (arg0 : string) (rest : list string) :
  Forall (λ c, lava.Name c ≠ arg0) before → lava.Name cmd = arg0 →
  lava.rangeCommands (before ++ cmd :: after) i arg0 rest
  = (map lava.SetCommandUsage (seq i (S (length before)))
     ++ (ranCommand cmd (i + length before) rest).1,
     (ranCommand cmd (i + length before) rest).2).
Proof.
  intros H Hcmd. revert i. induction H as [| c before Hne _ IH]; intros i.
  - simpl. rewrite Nat.add_0_r, (proj2 (String.eqb_eq _ _) Hcmd).
    unfold ranCommand. by destruct (lava.Run cmd _).
  - cbn [app lava.rangeCommands]. apply String.eqb_neq in Hne as ->.
    rewrite IH. cbn [length]. rewrite Nat.add_succ_r. done.
Qed.

(** The commands split at the first one named [arg0], if there is one. *)
Lemma commands_first_named (cmds : list lava.Command) (arg0 : string) :
  Forall (λ c, lava.Name c ≠ arg0) cmds ∨
  ∃ before cmd after, cmds = before ++ cmd :: after ∧
    Forall (λ c, lava.Name c ≠ arg0) before ∧ lava.Name cmd = arg0.
Proof.
  induction cmds as [| c cmds IH]; [by left |].
  destruct (String.eqb_spec (lava.Name c) arg0) as [E | E].
  - right. by exists [], c, cmds.
  - destruct IH as [H | (before & cmd & after & -> & H & Hc)].
    + left. by constructor.
    + right. exists (c :: before), cmd, after. repeat split; [by constructor | done].
Qed.

(** X11. How [lava] ends: with status 2 without arguments and for a
    first argument that is neither "help" nor the name of a command;
    with status 1 when the first command of that name returns an error;
    otherwise, for "help" and for a command that succeeds, [main]
    returns. A command named "help" is never reached. *)
Theorem main_exit_status (Quote : string → string)
    (Commands : list lava.Command) (args : list string) :
  (lava.main Quote Commands args).2
  = match args with
    | [] => inr 2
    | arg0 :: rest =>
        if String.eqb arg0 "help" then inl tt
        else
          match find (λ c, String.eqb (lava.Name c) arg0) Commands with
          | None => inr 2
          | Some cmd =>
              match lava.Run cmd (lava.Flag_Parse cmd rest) with
              | Some _ => inr 1
              | None => inl tt
              end
          end
    end.
Proof.
  destruct args as [| arg0 rest]; [done |].
  unfold lava.main. simpl.
  destruct (String.eqb arg0 "help"); [done |].
  assert (H : ∀ cmds i,
    (lava.rangeCommands cmds i arg0 rest).2
    = match find (λ c, String.eqb (lava.Name c) arg0) cmds with
      | None => inl false
      | Some cmd =>
          match lava.Run cmd (lava.Flag_Parse cmd rest) with
          | Some _ => inr 1
          | None => inl true
          end
      end).
  { induction cmds as [| cmd cmds IH]; intros i; simpl; [done |].
    destruct (String.eqb (lava.Name cmd) arg0).
    - by destruct (lava.Run cmd _).
    - specialize (IH (S i)).
      by destruct (lava.rangeCommands cmds (S i) arg0 rest) as [events [b | z]]. }
  specialize (H Commands 0%nat).
  destruct (lava.rangeCommands Commands 0 arg0 rest) as [events r].
  simpl in H. subst r.
  destruct (find _ Commands) as [cmd |]; [| done].
  by destruct (lava.Run cmd _).
Qed.

(** X12. [lava] runs the first command of [base.Commands] whose name is
    its first argument, once, on the arguments the command's flag set
    leaves: the commands before it only get their usage function set,
    the commands after it are not touched and do not change the run; an
    error of the command goes to standard error after "error: " and
    the status is 1. *)
Theorem main_runs_first_match (Quote : string → string)
    (before after : list lava.Command) (cmd : lava.Command)
    (arg0 : string) (rest : list string) :
  arg0 ≠ "help" →
  Forall (λ c, lava.Name c ≠ arg0) before → lava.Name cmd = arg0 →
  lava.main Quote (before ++ cmd :: after) (arg0 :: rest)
  = (mainPrelude
     ++ map lava.SetCommandUsage (seq 0 (S (length before)))
     ++ [lava.CommandFlagParse (length before) rest;
         lava.CommandRun (length before) (lava.Flag_Parse cmd rest)]
     ++ match lava.Run cmd (lava.Flag_Parse cmd rest) with
        | Some err =>
            [lava.Stderr ("error: " +:+ errors.Error err +:+ lava.newline)]
        | None => []
        end,
     match lava.Run cmd (lava.Flag_Parse cmd rest) with
     | Some _ => inr 1
     | None => inl tt
     end).
Proof.
  intros Hhelp Hb Hc. unfold lava.main, lava.bind, lava.emit.
  apply String.eqb_neq in Hhelp as ->.
  rewrite (rangeCommands_match before after cmd 0 arg0 rest Hb Hc).
  unfold ranCommand. cbn [fst snd Nat.add].
  destruct (lava.Run cmd _); [done |].
  unfold lava.ret. cbn [app]. by rewrite app_nil_r.
Qed.

Lemma main_runs_first_match_witness :
  let scan := lava.mkCommand "scan" (λ args, args) (λ _, None) in
  let run := lava.mkCommand "run" (drop 1) (λ _, Some ErrNoTargets) in
  let run' := lava.mkCommand "run" (λ args, args) (λ _, None) in
  lava.main lava.quotePlain [scan; run; run'] ["run"; "-v"; "lava.yaml"]
  = ([lava.SetDefaultLogger; lava.SetFlagUsage; lava.FlagParse;
      lava.SetCommandUsage 0; lava.SetCommandUsage 1;
      lava.CommandFlagParse 1 ["-v"; "lava.yaml"]; lava.CommandRun 1 ["lava.yaml"];
      lava.Stderr ("error: no targets" +:+ lava.newline)], inr 1).
Proof.
  intros scan run run'.
  apply (main_runs_first_match lava.quotePlain [scan] [run'] run "run"
           ["-v"; "lava.yaml"]).
  - discriminate.
  - repeat constructor. discriminate.
  - reflexivity.
Defined.

(** X13. For a first argument that is neither "help" nor the name of a
    command, [lava] runs nothing: it sets the usage function of every
    command, writes the unknown-command message with the quoted argument
    to standard error and exits with status 2. *)
Theorem main_unknown_command (Quote : string → string)
    (Commands : list lava.Command) (arg0 : string) (rest : list string) :
  arg0 ≠ "help" →
  Forall (λ c, lava.Name c ≠ arg0) Commands →
  lava.main Quote Commands (arg0 :: rest)
  = (mainPrelude
     ++ map lava.SetCommandUsage (seq 0 (length Commands))
     ++ [lava.Stderr ("lava: unknown command " +:+ Quote arg0 +:+ lava.newline
                      +:+ "Run 'lava help' for usage." +:+ lava.newline)],
     inr 2).
Proof.
  intros Hhelp Hn. unfold lava.main, lava.bind, lava.emit.
  apply String.eqb_neq in Hhelp as ->.
  by rewrite (rangeCommands_nomatch Commands 0 arg0 rest Hn).
Qed.

Lemma main_unknown_command_witness :
  lava.main lava.quotePlain
    (lava.init (lava.mkCommand "run" (λ args, args) (λ _, None))) ["scan"; "x"]
  = ([lava.SetDefaultLogger; lava.SetFlagUsage; lava.FlagParse;
      lava.SetCommandUsage 0;
      lava.Stderr ("lava: unknown command " +:+ lava.quotePlain "scan"
                   +:+ lava.newline +:+ "Run 'lava help' for usage."
                   +:+ lava.newline)], inr 2).
Proof.
  apply (main_unknown_command lava.quotePlain
           (lava.init (lava.mkCommand "run" (λ args, args) (λ _, None)))
           "scan" ["x"]).
  - discriminate.
  - repeat constructor. discriminate.
Defined.

Lemma filter_SetCommandUsage (P : lava.event → bool) (l : list nat) :
  (∀ i, P (lava.SetCommandUsage i) = false) →
  List.filter P (map lava.SetCommandUsage l) = [].
Proof.
  intros H. induction l as [| i l IH]; simpl; [done |]. by rewrite H.
Qed.

(** X14. In every run [lava] runs at most one command, and none without
    arguments or for "help", even when a command has that name; it runs
    exactly one when it ends with status 1; and when it returns it has
    written nothing to standard error itself. *)
Theorem main_runs_at_most_one (Quote : string → string)
    (Commands : list lava.Command) (args : list string) :
  let events := (lava.main Quote Commands args).1 in
  let status := (lava.main Quote Commands args).2 in
  (length (List.filter lava.isCommandRun events) ≤ 1)%nat ∧
  (args = [] ∨ hd "" args = "help" →
   List.filter (lava.touchesFrom 0) events = []) ∧
  (status = inr 1 → length (List.filter lava.isCommandRun events) = 1%nat) ∧
  (status = inl tt → List.filter lava.isStderr events = []).
Proof.
  destruct args as [| arg0 rest].
  { simpl. repeat split; try done; lia. }
  destruct (String.eqb_spec arg0 "help") as [-> | Hhelp].
  { simpl. repeat split; try done; lia. }
  cbn zeta. unfold lava.main, lava.bind, lava.emit.
  apply String.eqb_neq in Hhelp as Hhelp'. rewrite Hhelp'.
  assert (Hno : ¬ (arg0 :: rest = [] ∨ hd "" (arg0 :: rest) = "help")).
  { by intros [[=] | H]. }
  destruct (commands_first_named Commands arg0)
    as [Hn | (before & cmd & after & -> & Hb & Hc)].
  - rewrite (rangeCommands_nomatch Commands 0 arg0 rest Hn).
    unfold lava.os_Exit. cbn [fst snd app List.filter lava.isCommandRun lava.isStderr].
    rewrite !List.filter_app.
    rewrite ?(filter_SetCommandUsage lava.isCommandRun),
      ?(filter_SetCommandUsage lava.isStderr) by done.
    simpl. repeat split; try done; lia.
  - rewrite (rangeCommands_match before after cmd 0 arg0 rest Hb Hc).
    unfold ranCommand, lava.os_Exit, lava.ret. cbn [fst snd Nat.add].
    destruct (lava.Run cmd _);
      cbn [fst snd app List.filter lava.isCommandRun lava.isStderr];
      rewrite !List.filter_app;
      simpl;
      rewrite ?(filter_SetCommandUsage lava.isCommandRun),
        ?(filter_SetCommandUsage lava.isStderr) by done;
      repeat split; try done; lia.
Qed.
